(** * A bounded-concurrency fetch / transform / persist pipeline

    Shallow embedding of the day-2 crawler ([async_crawler.py]), its SQLite
    store ([ArticleDatabase.py]) and the coordinator that joins them
    ([crawler_db_pipeline.py]), followed by the properties of the
    specification that are stated about them.

    Layout: the Python values the code handles, the document tree that
    content extraction walks, the crawler, the admission gate as a
    transition system, the store, the coordinator and some sample data;
    then the properties, component by component, and worked instances. *)

From Stdlib Require Import ZArith Lia Floats DecimalPos.
From stdpp Require Import gmap strings list sorting.

Local Open Scope Z_scope.

(** ** Python values *)

Module Py.

(** A Python [str] is a sequence of Unicode code points; [len] and slicing
    count code points. *)
Definition codepoint := N.
Definition pystr := list codepoint.

(** An ASCII literal as a [str]. *)
Definition lit (s : string) : pystr :=
  map (fun a => N.of_nat (Ascii.nat_of_ascii a)) (String.list_ascii_of_string s).

(** [len(s)]. *)
Definition len (s : pystr) : Z := Z.of_nat (length s).

(** [s[:n]]: the first [n] code points, and for a negative [n] all but the
    last [-n]. *)
Definition slice_to (n : Z) (s : pystr) : pystr :=
  if n <? 0 then take (Z.to_nat (len s + n)) s else take (Z.to_nat n) s.

(** The code points for which [str.isspace] holds. *)
Definition isspace (c : codepoint) : bool :=
  let z := Z.of_N c in
  ((9 <=? z) && (z <=? 13)) || ((28 <=? z) && (z <=? 32))
  || (z =? 133) || (z =? 160) || (z =? 5760)
  || ((8192 <=? z) && (z <=? 8202))
  || (z =? 8232) || (z =? 8233) || (z =? 8239) || (z =? 8287) || (z =? 12288).

Fixpoint lstrip (s : pystr) : pystr :=
  match s with
  | c :: s' => if isspace c then lstrip s' else s
  | [] => []
  end.

(** [s.strip()]. *)
Definition strip (s : pystr) : pystr := reverse (lstrip (reverse (lstrip s))).

(** [sep.join(parts)]. *)
Fixpoint join (sep : pystr) (parts : list pystr) : pystr :=
  match parts with
  | [] => []
  | [p] => p
  | p :: rest => p ++ sep ++ join sep rest
  end.

(** [max(x :: rest, key=key)]: the first element whose key is largest. *)
Fixpoint max_by {A} (key : A -> Z) (x : A) (rest : list A) : A :=
  match rest with
  | [] => x
  | y :: rest' => max_by key (if key x <? key y then y else x) rest'
  end.

(** The exceptions the modelled code can meet, all subclasses of
    [Exception].  Cancellation and interpreter shutdown derive from
    [BaseException] only and are not part of the model. *)
Inductive exn :=
| TimeoutError          (* asyncio.TimeoutError *)
| ClientError           (* aiohttp.ClientError: connection refused, DNS, ... *)
| AttributeError        (* attribute access on None *)
| ValueError
| SqliteError           (* sqlite3.Error and its subclasses *)
| OtherError (code : N).

(** How a call ends: with a value, with an exception leaving the callee, or
    never (the coroutine is suspended and not resumed). *)
Inductive outcome (A : Type) :=
| Returns (a : A)
| Raises (e : exn)
| Blocks.
Arguments Returns {A} a.
Arguments Raises {A} e.
Arguments Blocks {A}.

Definition bind {A B} (m : outcome A) (k : A -> outcome B) : outcome B :=
  match m with
  | Returns a => k a
  | Raises e => Raises e
  | Blocks => Blocks
  end.

(** The call ended with an exception. *)
Definition is_raise {A} (r : outcome A) : bool :=
  match r with
  | Raises _ => true
  | _ => false
  end.

End Py.
Export Py.

(** ** The parsed document (BeautifulSoup) *)

Module Soup.

(** A node of the parsed tree: a text string, or a tag with its name, the
    values of its [class] attribute, its other attributes and its children.
    The [BeautifulSoup] object is the root tag. *)
#[warnings="-register-all"]
Inductive node :=
| NText (s : pystr)
| NElem (name : string) (classes : list string)
        (attrs : list (string * string)) (kids : list node).

(** One compound CSS selector: an optional tag name, class and attribute
    value, all of which must hold. *)
Record compound := {
  c_name : option string;
  c_class : option string;
  c_attr : option (string * string)
}.

(** A selector of the code: a compound for the element itself and the
    compounds its ancestors must match in turn, nearest first (the
    descendant combinator). *)
Record selector := {
  target : compound;
  within : list compound
}.

Definition by_name (n : string) : selector :=
  {| target := {| c_name := Some n; c_class := None; c_attr := None |}; within := [] |}.
Definition by_class (c : string) : selector :=
  {| target := {| c_name := None; c_class := Some c; c_attr := None |}; within := [] |}.
Definition by_name_class (n c : string) : selector :=
  {| target := {| c_name := Some n; c_class := Some c; c_attr := None |}; within := [] |}.
Definition by_attr (k v : string) : selector :=
  {| target := {| c_name := None; c_class := None; c_attr := Some (k, v) |}; within := [] |}.
Definition inside (outer : selector) (inner : selector) : selector :=
  {| target := target inner; within := within inner ++ target outer :: within outer |}.

Definition opt_holds {A} (o : option A) (p : A -> bool) : bool :=
  match o with
  | None => true
  | Some a => p a
  end.

Definition matches_compound (c : compound) (n : node) : bool :=
  match n with
  | NText _ => false
  | NElem name classes attrs _ =>
      opt_holds (c_name c) (fun x => bool_decide (x = name))
      && opt_holds (c_class c) (fun x => bool_decide (x ∈ classes))
      && opt_holds (c_attr c) (fun kv => bool_decide (kv ∈ attrs))
  end.

(** The ancestors [anc] (nearest first) satisfy the chain [outer]. *)
Fixpoint matches_chain (outer : list compound) (anc : list node) : bool :=
  match outer with
  | [] => true
  | c :: outer' =>
      (fix find (anc : list node) : bool :=
         match anc with
         | [] => false
         | a :: anc' => (matches_compound c a && matches_chain outer' anc') || find anc'
         end) anc
  end.

Definition matches (sel : selector) (anc : list node) (n : node) : bool :=
  matches_compound (target sel) n && matches_chain (within sel) anc.

(** The tags at and below [n] in document order, each with its ancestors. *)
Fixpoint tags_from (anc : list node) (n : node) : list (list node * node) :=
  match n with
  | NText _ => []
  | NElem _ _ _ kids => (anc, n) :: flat_map (tags_from (n :: anc)) kids
  end.

(** The tags strictly below the root. *)
Definition descendants (root : node) : list (list node * node) :=
  match root with
  | NText _ => []
  | NElem _ _ _ kids => flat_map (tags_from [root]) kids
  end.

(** [soup.select_one(sel)]: the first match in document order. *)
Definition select_one (root : node) (sel : selector) : option node :=
  snd <$> head (filter (fun p => matches sel (fst p) (snd p) = true) (descendants root)).

Definition has_name (names : list string) (n : node) : bool :=
  match n with
  | NText _ => false
  | NElem name _ _ _ => bool_decide (name ∈ names)
  end.

(** [soup.find_all(names)]. *)
Definition find_all (names : list string) (root : node) : list node :=
  snd <$> filter (fun p => has_name names (snd p) = true) (descendants root).

(** The text strings at and below a node, in document order. *)
Fixpoint all_strings (n : node) : list pystr :=
  match n with
  | NText s => [s]
  | NElem _ _ _ kids => flat_map all_strings kids
  end.

Definition nonempty (s : pystr) : bool :=
  match s with
  | [] => false
  | _ => true
  end.

(** [tag.get_text(separator=sep, strip=strip)]: with [strip], every string
    is stripped and the empty ones are left out. *)
Definition get_text (sep : pystr) (strip_each : bool) (n : node) : pystr :=
  join sep
    (if strip_each
     then filter (fun s => nonempty s = true) (map strip (all_strings n))
     else all_strings n).

(** The tree after [decompose()] was called on every tag below the root
    whose name is in [names]. *)
Fixpoint decompose_all (names : list string) (n : node) : node :=
  match n with
  | NText s => NText s
  | NElem name classes attrs kids =>
      NElem name classes attrs
        ((fix go (ks : list node) : list node :=
            match ks with
            | [] => []
            | k :: ks' =>
                if has_name names k then go ks'
                else decompose_all names k :: go ks'
            end) kids)
  end.

End Soup.
Export Soup.

(** ** The crawler ([async_crawler.py]) *)

Module Crawler.

(** [Article], the outcome of one fetch. *)
Record Article := {
  title : pystr;
  url : pystr;
  content : pystr;
  fetched_at : float;
  status : Z
}.

(** [self.stats]. *)
Record Stats := {
  success : Z;
  failed : Z;
  total_time : float
}.

(** The fields of an [AsyncCrawler]: the value of its semaphore while no
    task holds it, the delay, the timeout in seconds, whether the session was
    opened, and the counters. *)
Record AsyncCrawler := {
  semaphore : Z;
  delay : float;
  timeout : Z;
  session : bool;
  stats : Stats
}.

(** [asyncio.Semaphore(value)]: a negative initial value is refused, zero is
    accepted. *)
Definition Semaphore (value : Z) : outcome Z :=
  if value <? 0 then Raises ValueError else Returns value.

(** [AsyncCrawler.__init__]. *)
Definition __init__ (max_concurrent : Z) (delay : float) (timeout : Z)
  : outcome AsyncCrawler :=
  bind (Semaphore max_concurrent) (fun sem =>
  Returns {| semaphore := sem;
             delay := delay;
             timeout := timeout;
             session := false;
             stats := {| success := 0; failed := 0; total_time := 0%float |} |}).

(** [__aenter__] opens the session. *)
Definition __aenter__ (c : AsyncCrawler) : AsyncCrawler :=
  {| semaphore := semaphore c; delay := delay c; timeout := timeout c;
     session := true; stats := stats c |}.

(** [__aexit__] closes it. *)
Definition __aexit__ (c : AsyncCrawler) : AsyncCrawler :=
  {| semaphore := semaphore c; delay := delay c; timeout := timeout c;
     session := false; stats := stats c |}.

Definition with_stats (c : AsyncCrawler) (s : Stats) : AsyncCrawler :=
  {| semaphore := semaphore c; delay := delay c; timeout := timeout c;
     session := session c; stats := s |}.

Definition count_failed (s : Stats) : Stats :=
  {| success := success s; failed := failed s + 1; total_time := total_time s |}.

Definition count_success (elapsed : float) (s : Stats) : Stats :=
  {| success := success s + 1; failed := failed s;
     total_time := PrimFloat.add (total_time s) elapsed |}.

(** What the world outside does for one fetch: the transport either gives no
    response (timeout, refused connection, failed lookup) or a response with
    a status whose body can be read or not; and the three readings of the
    clock the fetch makes. *)
Inductive body :=
| BodyText (html : pystr)
| BodyFails (e : exn).

Inductive transport :=
| NoResponse (e : exn)
| Response (code : Z) (b : body).

Record world := {
  net : transport;
  t_start : float;
  t_response : float;
  t_done : float
}.

(** The fallback title, three code points. *)
Definition no_title : pystr := [26080; 26631; 39064]%N.

Definition title_selectors : list selector :=
  [ by_name_class "h1" "article-title";
    by_name_class "h1" "entry-title";
    by_name_class "h1" "post-title";
    by_name "h1";
    by_name "title";
    inside (by_class "article-header") (by_name "h1") ].

Definition content_selectors : list selector :=
  [ by_name "article";
    by_name "main";
    by_class "article-content";
    by_class "post-content";
    by_class "entry-content";
    by_attr "role" "main" ].

Definition noise_names : list string :=
  ["script"; "style"; "nav"; "header"; "footer"; "aside"].

(** The loop over the selectors: the first one that selects a tag decides.
    A tag is true in a condition whatever it contains. *)
Fixpoint first_selected (soup : node) (sels : list selector) : option node :=
  match sels with
  | [] => None
  | sel :: rest =>
      match select_one soup sel with
      | Some tag => Some tag
      | None => first_selected soup rest
      end
  end.

(** [_extract_title]. *)
Definition _extract_title (soup : node) : pystr :=
  match first_selected soup title_selectors with
  | Some tag => slice_to 200 (get_text [] true tag)
  | None => no_title
  end.

(** [_extract_content]; it first removes the noise tags from the tree. *)
Definition _extract_content (soup : node) : pystr :=
  let soup := decompose_all noise_names soup in
  match first_selected soup content_selectors with
  | Some container => slice_to 10000 (get_text [10%N] true container)
  | None =>
      match find_all ["p"] soup with
      | p :: ps =>
          let longest := max_by (fun p => len (get_text [] false p)) p ps in
          slice_to 10000 (get_text [] true longest)
      | [] => slice_to 5000 (get_text [10%N] true soup)
      end
  end.

Section WithParser.

(** [BeautifulSoup(html, 'lxml')]: the parser is outside the code. *)
Variable parse : pystr -> node.

(** The body as extraction gets it: cut to 1,000,000 code points. *)
Definition read_html (html : pystr) : pystr :=
  if 1000000 <? len html then slice_to 1000000 html else html.

(** The [try] block of [fetch_one]: its value or the exception that leaves
    it, and the counters as it leaves them. *)
Definition try_fetch (c : AsyncCrawler) (u : pystr) (w : world)
  : outcome Article * Stats :=
  if negb (session c) then (Raises AttributeError, stats c)
  else
    match net w with
    | NoResponse e => (Raises e, stats c)
    | Response code b =>
        let elapsed := PrimFloat.sub (t_response w) (t_start w) in
        if negb (code =? 200) then
          (Returns {| title := []; url := u; content := [];
                      fetched_at := t_done w; status := code |},
           count_failed (stats c))
        else
          match b with
          | BodyFails e => (Raises e, stats c)
          | BodyText html =>
              let html := read_html html in
              let soup := parse html in
              let title := _extract_title soup in
              let content := _extract_content soup in
              (Returns {| title := title; url := u; content := content;
                          fetched_at := t_done w; status := 200 |},
               count_success elapsed (stats c))
          end
    end.

(** [fetch_one].  The body runs inside [async with self.semaphore]: with no
    permit to give, the task is never resumed (module [Gate] below has the
    protocol).  Both handlers count a failure and return [None]. *)
Definition fetch_one (c : AsyncCrawler) (u : pystr) (w : world)
  : outcome (option Article) * AsyncCrawler :=
  if semaphore c <? 1 then (Blocks, c)
  else
    match try_fetch c u w with
    | (Returns a, s) => (Returns (Some a), with_stats c s)
    | (Raises TimeoutError, s) => (Returns None, with_stats c (count_failed s))
    | (Raises _, s) => (Returns None, with_stats c (count_failed s))
    | (Blocks, s) => (Blocks, with_stats c s)
    end.

(** One entry of what [asyncio.gather(..., return_exceptions=True)] returns:
    the task's value, or the exception it ended with. *)
Inductive gathered :=
| GValue (v : option Article)
| GException (e : exn).

(** The tasks of a batch, each a url with what the world does for it, run
    to their ends; the counters are shared. *)
Fixpoint run_tasks (c : AsyncCrawler) (tasks : list (pystr * world))
  : list (outcome (option Article)) * AsyncCrawler :=
  match tasks with
  | [] => ([], c)
  | (u, w) :: rest =>
      let '(r, c1) := fetch_one c u w in
      let '(rs, c2) := run_tasks c1 rest in
      (r :: rs, c2)
  end.

(** [gather] returns once every task has ended, with the results in the
    order of the tasks. *)
Fixpoint gather (rs : list (outcome (option Article))) : outcome (list gathered) :=
  match rs with
  | [] => Returns []
  | r :: rest =>
      match r with
      | Blocks => Blocks
      | Returns v => bind (gather rest) (fun gs => Returns (GValue v :: gs))
      | Raises e => bind (gather rest) (fun gs => Returns (GException e :: gs))
      end
  end.

(** The filter loop of [fetch_many]. *)
Fixpoint keep_articles (results : list gathered) : list Article :=
  match results with
  | [] => []
  | r :: rest =>
      match r with
      | GValue (Some a) =>
          if status a =? 200 then a :: keep_articles rest else keep_articles rest
      | GValue None => keep_articles rest
      | GException _ => keep_articles rest
      end
  end.

(** [fetch_many]. *)
Definition fetch_many (c : AsyncCrawler) (tasks : list (pystr * world))
  : outcome (list Article) * AsyncCrawler :=
  let '(rs, c') := run_tasks c tasks in
  (bind (gather rs) (fun results => Returns (keep_articles results)), c').

(** What one task contributes to the batch's result: its outcome when the
    fetch returned one with status 200, nothing otherwise. *)
Definition delivered (c : AsyncCrawler) (task : pystr * world) : option Article :=
  match fst (fetch_one c (fst task) (snd task)) with
  | Returns (Some a) => if status a =? 200 then Some a else None
  | _ => None
  end.

End WithParser.

End Crawler.

(** ** The admission gate: [async with self.semaphore] over a batch *)

Module Gate.

(** How a task leaves the body of [async with]: by one of the two [return]s
    of a fetch, or with an exception passing through. *)
Inductive exit_path :=
| ReturnedArticle
| ReturnedNone
| Propagated (e : exn).

(** Where a task of the batch is: before [acquire] returned, inside the
    body, or past the [release] that leaving the body runs. *)
Inductive phase :=
| Waiting
| Holding
| Left (how : exit_path).

(** The semaphore's counter and the tasks of the batch. *)
Record state := {
  value : Z;
  phases : list phase
}.

Definition start (K : Z) (N : nat) : state :=
  {| value := K; phases := replicate N Waiting |}.

Definition is_holding (p : phase) : bool :=
  match p with
  | Holding => true
  | _ => false
  end.

Definition is_left (p : phase) : bool :=
  match p with
  | Left _ => true
  | _ => false
  end.

Fixpoint count (f : phase -> bool) (ps : list phase) : Z :=
  match ps with
  | [] => 0
  | p :: ps' => (if f p then 1 else 0) + count f ps'
  end.

(** The number of tasks between [acquire] and [release]. *)
Definition holding (s : state) : Z := count is_holding (phases s).

(** One scheduling step.  [acquire] returns only while the counter is
    positive and takes one permit; leaving the body, on whichever path,
    gives it back. *)
Inductive step : state -> state -> Prop :=
| step_acquire s i :
    phases s !! i = Some Waiting ->
    0 < value s ->
    step s {| value := value s - 1; phases := <[i := Holding]> (phases s) |}
| step_release s i how :
    phases s !! i = Some Holding ->
    step s {| value := value s + 1; phases := <[i := Left how]> (phases s) |}.

(** The states a batch of [N] tasks can be in, under any interleaving, when
    the semaphore was built with [K]. *)
Inductive reachable (K : Z) (N : nat) : state -> Prop :=
| reach_start : reachable K N (start K N)
| reach_step s s' : reachable K N s -> step s s' -> reachable K N s'.

Definition b2z (b : bool) : Z := if b then 1 else 0.



(** The permits not in the semaphore are with the tasks inside the body. *)
Definition gate_inv (K : Z) (N : nat) (s : state) : Prop :=
  value s + holding s = K /\ 0 <= value s /\ length (phases s) = N.

End Gate.

(** ** The store ([ArticleDatabase.py]) *)

Module Db.

(** The values the code binds to a statement: [None] or a [str]. *)
Inductive pyval :=
| PyNone
| PyStr (s : pystr).

(** A row of table [articles]; [None] is SQL's NULL.  [title] and [url] are
    NOT NULL, [created_at] is filled by its default. *)
Record Row := {
  id : Z;
  title : pystr;
  url : pystr;
  content : option pystr;
  source : option pystr;
  category : option pystr;
  fetched_at : option pystr;
  created_at : pystr
}.

(** The database file: the table in rowid order and the AUTOINCREMENT
    counter the engine keeps for it. *)
Record Database := {
  rows : list Row;
  seq : Z
}.

Definition empty : Database := {| rows := []; seq := 0 |}.

(** What the engine does on one call, apart from the statement itself:
    nothing unusual, a failed [connect], a failed [execute] (locked file,
    full disk, ...), or a failed [commit]. *)
Inductive engine :=
| Healthy
| ConnectFails
| ExecuteFails
| CommitFails.

(** The engine's behaviour and CURRENT_TIMESTAMP for one call. *)
Record db_env := {
  engine_event : engine;
  now : pystr
}.

Definition to_sql (v : pyval) : option pystr :=
  match v with
  | PyNone => None
  | PyStr s => Some s
  end.

(** A dict that binds the five named parameters to strings, as the record
    mapper and the tests build it. *)
Definition record (t u c s f : pystr) : gmap string pyval :=
  <["title" := PyStr t]> (<["url" := PyStr u]> (<["content" := PyStr c]>
  (<["source" := PyStr s]> (<["fetched_at" := PyStr f]> ∅)))).

Definition max_id (rws : list Row) : Z :=
  foldr (fun r m => Z.max (id r) m) 0 rws.

Fixpoint find_url (u : pystr) (rws : list Row) : option Row :=
  match rws with
  | [] => None
  | r :: rest => if decide (url r = u) then Some r else find_url u rest
  end.

(** The DO UPDATE clause on the row that holds [u]. *)
Definition set_row (t : pystr) (c f : option pystr) (r : Row) : Row :=
  {| id := id r; title := t; url := url r; content := c; source := source r;
     category := category r; fetched_at := f; created_at := created_at r |}.

Definition update_url (u t : pystr) (c f : option pystr) (rws : list Row) : list Row :=
  map (fun r => if decide (url r = u) then set_row t c f r else r) rws.

(** The statement of [insert_article]:
    INSERT ... ON CONFLICT(url) DO UPDATE SET title, content, fetched_at
    RETURNING id.  [None] stands for the [sqlite3.Error] it raises: a named
    parameter the dict does not supply, or a NULL for a NOT NULL column.
    The engine draws the candidate rowid, and records it in its counter,
    before it looks for the conflict. *)
Definition upsert (db : Database) (article : gmap string pyval) (now : pystr)
  : option (Z * Database) :=
  t ← article !! "title";
  u ← article !! "url";
  c ← article !! "content";
  s ← article !! "source";
  f ← article !! "fetched_at";
  t ← to_sql t;
  u ← to_sql u;
  let new_id := Z.max (seq db) (max_id (rows db)) + 1 in
  match find_url u (rows db) with
  | Some r =>
      Some (id r,
            {| rows := update_url u t (to_sql c) (to_sql f) (rows db);
               seq := new_id |})
  | None =>
      Some (new_id,
            {| rows := rows db ++
                 [{| id := new_id; title := t; url := u; content := to_sql c;
                     source := to_sql s; category := None;
                     fetched_at := to_sql f; created_at := now |}];
               seq := new_id |})
  end.

(** [insert_article].  [connect] and [commit] are outside the [try]: their
    errors leave the method; an error of [execute] is caught and [None] is
    returned.  A write that was not committed is rolled back. *)
Definition insert_article (db : Database) (article : gmap string pyval) (env : db_env)
  : outcome (option Z) * Database :=
  match engine_event env with
  | ConnectFails => (Raises SqliteError, db)
  | ExecuteFails => (Returns None, db)
  | ev =>
      match upsert db article (now env) with
      | None => (Returns None, db)
      | Some (i, db') =>
          match ev with
          | CommitFails => (Raises SqliteError, db)
          | _ => (Returns (Some i), db')
          end
      end
  end.

(** What the schema and the engine keep true of the table: urls and ids are
    unique, and ids are positive. *)
Record db_ok (db : Database) : Prop := {
  ok_urls : NoDup (map url (rows db));
  ok_ids : NoDup (map id (rows db));
  ok_pos : Forall (fun i => 1 <= i) (map id (rows db));
  ok_seq : 0 <= seq db
}.


End Db.

(** ** The coordinator ([crawler_db_pipeline.py]) *)

Module Pipeline.

(** The [stats] dict of [crawl_and_store]. *)
Record PipelineStats := {
  total : Z;
  success : Z;
  failed : Z;
  stored : Z
}.

(** [if article_id:] holds for an identifier other than [None] and [0]. *)
Definition truthy (article_id : option Z) : bool :=
  match article_id with
  | Some i => negb (i =? 0)
  | None => false
  end.

Section WithWorld.

Variable parse : pystr -> node.

(** [datetime.fromtimestamp(t).isoformat()], defined on every reading of
    the clock. *)
Variable isoformat : float -> pystr.

(** [article_to_record]. *)
Definition article_to_record (article : Crawler.Article) (source : pystr)
  : gmap string Db.pyval :=
  <["title" := Db.PyStr (slice_to 200 (Crawler.title article))]>
  (<["url" := Db.PyStr (Crawler.url article)]>
  (<["content" := Db.PyStr (slice_to 2000 (Crawler.content article))]>
  (<["source" := Db.PyStr source]>
  (<["fetched_at" := Db.PyStr (isoformat (Crawler.fetched_at article))]> ∅)))).

(** The storing loop.  [engine k] is what the engine does on the [k]-th
    call of this invocation.  Besides the count, the loop's model keeps the
    identifiers [insert_article] returned, in order. *)
Fixpoint store_articles (source : pystr) (articles : list Crawler.Article)
    (engine : nat -> Db.db_env) (call : nat) (db : Db.Database) (stored : Z)
  : outcome (Z * list (option Z)) * Db.Database :=
  match articles with
  | [] => (Returns (stored, []), db)
  | article :: rest =>
      if Crawler.status article =? 200 then
        match Db.insert_article db (article_to_record article source) (engine call) with
        | (Returns article_id, db') =>
            let '(r, db'') :=
              store_articles source rest engine (S call) db'
                (if truthy article_id then stored + 1 else stored) in
            (bind r (fun '(n, ids) => Returns (n, article_id :: ids)), db'')
        | (Raises e, db') => (Raises e, db')
        | (Blocks, db') => (Blocks, db')
        end
      else store_articles source rest engine call db stored
  end.

(** [crawl_and_store].  [tasks] are the urls, each with what the world does
    for its fetch. *)
Definition crawl_and_store (db : Db.Database) (tasks : list (pystr * Crawler.world))
    (source : pystr) (max_concurrent : Z) (delay : float) (engine : nat -> Db.db_env)
  : outcome PipelineStats * Db.Database :=
  let total := Z.of_nat (length tasks) in
  match Crawler.__init__ max_concurrent delay 30 with
  | Returns crawler =>
      let '(r, _) := Crawler.fetch_many parse (Crawler.__aenter__ crawler) tasks in
      match r with
      | Returns articles =>
          let success :=
            Z.of_nat (length (filter (fun a => Crawler.status a = 200) articles)) in
          let failed := total - success in
          let '(r2, db') := store_articles source articles engine 0 db 0 in
          (bind r2 (fun '(stored, _) =>
             Returns {| total := total; success := success;
                        failed := failed; stored := stored |}), db')
      | Raises e => (Raises e, db)
      | Blocks => (Blocks, db)
      end
  | Raises e => (Raises e, db)
  | Blocks => (Blocks, db)
  end.

End WithWorld.

End Pipeline.

(** ** The store's queries and maintenance ([ArticleDatabase.py]) *)

Module Queries.

(** [ArticleRecord]; the queries build one from each row, column by column. *)
Record ArticleRecord := {
  id : option Z;
  title : pystr;
  url : pystr;
  content : option pystr;
  source : option pystr;
  category : option pystr;
  fetched_at : option pystr;
  created_at : option pystr
}.

Definition of_row (r : Db.Row) : ArticleRecord :=
  {| id := Some (Db.id r); title := Db.title r; url := Db.url r;
     content := Db.content r; source := Db.source r; category := Db.category r;
     fetched_at := Db.fetched_at r; created_at := Some (Db.created_at r) |}.

(** The order of two texts under the engine's default collation: code
    point by code point, a prefix first. *)
Fixpoint str_le (a b : pystr) : bool :=
  match a, b with
  | [], _ => true
  | _ :: _, [] => false
  | x :: a', y :: b' =>
      if (x <? y)%N then true
      else if (y <? x)%N then false
      else str_le a' b'
  end.

(** [r1] may stand before [r2] under ORDER BY created_at DESC. *)
Definition newer_first (r1 r2 : Db.Row) : Prop :=
  str_le (Db.created_at r2) (Db.created_at r1) = true.

(** What ORDER BY created_at DESC promises of the engine: the same rows,
    newest first; rows of one timestamp come in an order the engine
    chooses.  [created_at] holds what CURRENT_TIMESTAMP gave, a text. *)
Definition orders_newest_first (order : list Db.Row -> list Db.Row) : Prop :=
  forall rws, order rws ≡ₚ rws /\ StronglySorted newer_first (order rws).

(** [OverflowError], one of the other exceptions. *)
Definition OverflowError : exn := OtherError 1.

(** An [int] that can be bound to a parameter: the engine's integers have
    64 bits. *)
Definition int64 (z : Z) : bool :=
  (-9223372036854775808 <=? z) && (z <=? 9223372036854775807).

(** LIMIT [limit] OFFSET [offset]: a negative limit is no limit, a negative
    offset is none. *)
Definition limit_offset {A} (limit offset : Z) (l : list A) : list A :=
  let l' := drop (Z.to_nat offset) l in
  if limit <? 0 then l' else take (Z.to_nat limit) l'.

(** [if source:] holds for a [str] that is not empty. *)
Definition wanted (source : option pystr) : option pystr :=
  match source with
  | Some (c :: s) => Some (c :: s)
  | _ => None
  end.

(** The lower case of an ASCII letter, as LIKE folds it; other code points
    are compared as they are. *)
Definition ascii_lower (c : codepoint) : codepoint :=
  if ((65 <=? c) && (c <=? 90))%N then (c + 32)%N else c.

Definition percent : codepoint := 37%N.
Definition underscore : codepoint := 95%N.

(** The engine reads a text, and a pattern, up to its first NUL. *)
Fixpoint upto_nul (s : pystr) : pystr :=
  match s with
  | [] => []
  | c :: s' => if (c =? 0)%N then [] else c :: upto_nul s'
  end.



(** The matching of LIKE: [%] stands for any run of code points, [_] for
    any one, and ASCII letters match without regard to case. *)
Fixpoint like (pattern text : pystr) : bool :=
  match pattern with
  | [] =>
      match text with
      | [] => true
      | _ => false
      end
  | c :: pattern' =>
      if (c =? percent)%N then
        (fix from (text : pystr) : bool :=
           like pattern' text
           || match text with
              | [] => false
              | _ :: text' => from text'
              end) text
      else
        match text with
        | [] => false
        | d :: text' =>
            ((c =? underscore)%N || (ascii_lower c =? ascii_lower d)%N)
            && like pattern' text'
        end
  end.

(** [text LIKE pattern], for a pattern within the limit. *)
Definition sql_like (pattern text : pystr) : bool :=
  like (upto_nul pattern) (upto_nul text).

(** The pattern of a keyword, [f'%{keyword}%']. *)
Definition keyword_pattern (keyword : pystr) : pystr :=
  percent :: keyword ++ [percent].

(** The WHERE clause of [search_by_keyword]; a NULL content matches
    nothing. *)
Definition keyword_matches (keyword : pystr) (r : Db.Row) : bool :=
  let pattern := keyword_pattern keyword in
  sql_like pattern (Db.title r)
  || match Db.content r with
     | Some c => sql_like pattern c
     | None => false
     end.

(** The dict [get_stats] returns, without the path of the file. *)
Record Stats := {
  total_articles : Z;
  by_source : gmap (option pystr) Z
}.

(** GROUP BY source with COUNT, read into a dict; rows without a source
    form the group of key [None]. *)
Definition count_by_source (rws : list Db.Row) : gmap (option pystr) Z :=
  foldr (fun r m => <[Db.source r := default 0 (m !! Db.source r) + 1]> m) ∅ rws.

Definition sum_counts (m : gmap (option pystr) Z) : Z :=
  map_fold (fun _ n acc => n + acc) 0 m.

(** A query's connection: any failure of the engine leaves the [with]
    block as an exception, there is no handler. *)
Definition answered {A} (env : Db.db_env) (a : A) : outcome A :=
  match Db.engine_event env with
  | Db.Healthy => Returns a
  | _ => Raises SqliteError
  end.

Section WithEngine.

(** The engine's ORDER BY created_at DESC. *)
Variable order : list Db.Row -> list Db.Row.

(** The engine's value of [fetched_at < datetime('now', '-N days')] on a
    row, for N = [days]. *)
Variable is_old : Z -> Db.Row -> bool.

(** The rows a listing selects. *)
Definition selected (db : Db.Database) (source : option pystr) (limit offset : Z)
  : list Db.Row :=
  let matching :=
    match wanted source with
    | Some s => filter (fun r => Db.source r = Some s) (Db.rows db)
    | None => Db.rows db
    end in
  limit_offset limit offset (order matching).

(** [get_articles]: the records the generator yields, and how it ends.  A
    failed connect or execute yields nothing, and neither does a limit or an
    offset that cannot be bound; a failed commit comes after the last
    record. *)
Definition get_articles (db : Db.Database) (source : option pystr) (limit offset : Z)
    (env : Db.db_env) : list ArticleRecord * outcome unit :=
  match Db.engine_event env with
  | Db.ConnectFails => ([], Raises SqliteError)
  | event =>
      if int64 limit && int64 offset then
        match event with
        | Db.Healthy => (of_row <$> selected db source limit offset, Returns tt)
        | Db.CommitFails =>
            (of_row <$> selected db source limit offset, Raises SqliteError)
        | _ => ([], Raises SqliteError)
        end
      else ([], Raises OverflowError)
  end.


(** [get_stats]. *)
Definition get_stats (db : Db.Database) (env : Db.db_env) : outcome Stats :=
  answered env
    {| total_articles := Z.of_nat (length (Db.rows db));
       by_source := count_by_source (Db.rows db) |}.

(** [delete_old_articles]: the number of rows deleted and the table
    afterwards.  The engine's counter for rowids is not touched. *)
Definition delete_old_articles (db : Db.Database) (days : Z) (env : Db.db_env)
  : outcome Z * Db.Database :=
  match Db.engine_event env with
  | Db.Healthy =>
      (Returns (Z.of_nat (length (filter (fun r => is_old days r = true) (Db.rows db)))),
       {| Db.rows := filter (fun r => is_old days r <> true) (Db.rows db);
          Db.seq := Db.seq db |})
  | _ => (Raises SqliteError, db)
  end.

End WithEngine.

(** The table's identifiers are all behind the engine's counter. *)
Definition seq_covers (db : Db.Database) : Prop :=
  Forall (fun i => i <= Db.seq db) (map Db.id (Db.rows db)).

End Queries.

(** ** Executions of a batch at the gate *)

Module Runs.

(** [run n s s']: the batch goes from [s] to [s'] in [n] steps. *)
Inductive run : nat -> Gate.state -> Gate.state -> Prop :=
| run_done s : run 0 s s
| run_step n s s' s'' : Gate.step s s' -> run n s' s'' -> run (S n) s s''.


End Runs.


(** ** The commands ([crawler_db_pipeline.py]) *)

Module Cli.

(** The decimal digits of a number, as code points. *)
Fixpoint digits (u : Decimal.uint) : pystr :=
  match u with
  | Decimal.Nil => []
  | Decimal.D0 u => 48%N :: digits u
  | Decimal.D1 u => 49%N :: digits u
  | Decimal.D2 u => 50%N :: digits u
  | Decimal.D3 u => 51%N :: digits u
  | Decimal.D4 u => 52%N :: digits u
  | Decimal.D5 u => 53%N :: digits u
  | Decimal.D6 u => 54%N :: digits u
  | Decimal.D7 u => 55%N :: digits u
  | Decimal.D8 u => 56%N :: digits u
  | Decimal.D9 u => 57%N :: digits u
  end.

(** [str(i)] for an [int], as an f-string formats it. *)
Definition str_int (z : Z) : pystr :=
  match z with
  | Z0 => [48%N]
  | Zpos p => digits (Pos.to_uint p)
  | Zneg p => 45%N :: digits (Pos.to_uint p)
  end.



(** The urls of [crawl_httpbin]: one url, [count] times. *)
Definition httpbin_urls (count : Z) : list pystr :=
  replicate (Z.to_nat count) (lit "https://httpbin.org/html").

(** The urls of a batch with what the world does for each, by position. *)
Definition with_worlds (worlds : nat -> Crawler.world) (urls : list pystr)
  : list (pystr * Crawler.world) :=
  imap (fun i u => (u, worlds i)) urls.

Section WithWorld.

Variable parse : pystr -> node.
Variable isoformat : float -> pystr.


(** [crawl_httpbin], up to the statistics it prints. *)
Definition crawl_httpbin (db : Db.Database) (worlds : nat -> Crawler.world)
    (count : Z) (engine : nat -> Db.db_env)
  : outcome Pipeline.PipelineStats * Db.Database :=
  Pipeline.crawl_and_store parse isoformat db (with_worlds worlds (httpbin_urls count))
    (lit "httpbin") 1 0.5%float engine.

End WithWorld.

End Cli.


(** ** The retry decorator ([day1/src/decorator.py]) *)

Module Decorator.

Section Retry.

Context {A : Type}.

(** The [exceptions] tuple: the exceptions the [except] clause catches. *)
Variable catches : exn -> bool.

(** The decorated function, by call: what its [k]-th call does. *)
Variable func : nat -> outcome A.

(** What [time.sleep(delay)] does: it returns, or raises for a [delay] that
    is negative, not a number or too large. *)
Variable sleep : outcome unit.

(** The loop of the wrapper from attempt number [attempt] on, with [left]
    attempts to go and [calls] calls made: how the wrapper ends, [None]
    standing for the [return None] after the loop, and the calls made in
    all. *)
Fixpoint attempts (max_attempts : Z) (left : nat) (attempt : Z) (calls : nat)
  : outcome (option A) * nat :=
  match left with
  | O => (Returns None, calls)
  | S left' =>
      match func calls with
      | Returns result => (Returns (Some result), S calls)
      | Raises e =>
          if catches e then
            if attempt =? max_attempts then (Raises e, S calls)
            else
              match sleep with
              | Returns _ => attempts max_attempts left' (attempt + 1) (S calls)
              | Raises e' => (Raises e', S calls)
              | Blocks => (Blocks, S calls)
              end
          else (Raises e, S calls)
      | Blocks => (Blocks, S calls)
      end
  end.

(** The wrapper that [retry(max_attempts, delay, exceptions)] puts around
    [func]; the loop runs over [range(1, max_attempts + 1)]. *)
Definition retry (max_attempts : Z) : outcome (option A) * nat :=
  attempts max_attempts (Z.to_nat max_attempts) 1 0.

End Retry.

End Decorator.

(** ** What the pipeline shows ([crawler_db_pipeline.py]) *)

Module Views.

(** [TypeError], one of the other exceptions. *)
Definition TypeError : exn := OtherError 0.

(** The order of two items of a dict under [sorted]: the keys of a dict
    differ, so the keys decide, and two [str] compare code point by code
    point.  A [None] cannot be compared with a [str]; it is put first here,
    and [sorted_items] does not get that far. *)
Definition item_le (a b : option pystr * Z) : Prop :=
  match a.1, b.1 with
  | None, _ => True
  | Some _, None => False
  | Some x, Some y => Queries.str_le x y = true
  end.

Definition item_le_dec : RelDecision item_le.
Proof.
  intros [[x|] n] [[y|] m]; unfold item_le; simpl;
    [apply _|right; tauto|left; exact I|left; exact I].
Defined.

(** [sorted(d.items())] for a dict with keys that are [str] or [None].
    With two items or more every item is compared with another one, and
    [None < str] raises TypeError; a list of one item is not compared. *)
Definition sorted_items (d : gmap (option pystr) Z)
  : outcome (list (option pystr * Z)) :=
  if decide (is_Some (d !! None) /\ (2 <= size d)%nat) then Raises TypeError
  else Returns (@merge_sort _ item_le item_le_dec (map_to_list d)).

(** [show_stats], up to the printing of the table of sources: the rows it
    adds to that table, none when [by_source] is empty. *)
Definition show_stats (db : Db.Database) (env : Db.db_env)
  : outcome (list (option pystr * pystr)) :=
  bind (Queries.get_stats db env) (fun stats =>
    if decide (Queries.by_source stats = ∅) then Returns []
    else
      bind (sorted_items (Queries.by_source stats)) (fun items =>
        Returns ((fun item => (item.1, Cli.str_int item.2)) <$> items))).

End Views.

(** ** Notions the statements of the properties use *)

Module Notions.


(** The rows a listing chooses from. *)
Definition matching (db : Db.Database) (source : option pystr) : list Db.Row :=
  match Queries.wanted source with
  | Some s => filter (fun r => Db.source r = Some s) (Db.rows db)
  | None => Db.rows db
  end.





(** The [k]-th call of [func] fails with an exception [retry] catches. *)
Definition fails_caught {A} (catches : exn -> bool) (func : nat -> outcome A) (k : nat)
  : Prop :=
  exists e, func k = Raises e /\ catches e = true.

End Notions.

(** ** Sample data for the worked instances *)

Module Samples.

(** The tree of the page [<h1></h1>]. *)
Definition empty_heading_page : node :=
  NElem "[document]" [] []
    [NElem "html" [] []
       [NElem "head" [] [] [];
        NElem "body" [] [] [NElem "h1" [] [] []]]].

Definition blank_page : node := NElem "[document]" [] [] [].

(** A parser that reads [<h1></h1>] as that tree. *)
Definition sample_parse (html : pystr) : node :=
  if decide (html = lit "<h1></h1>") then empty_heading_page else blank_page.

Definition sample_isoformat (t : float) : pystr := lit "2024-05-01T12:00:00".

Definition sample_crawler : Crawler.AsyncCrawler :=
  {| Crawler.semaphore := 2; Crawler.delay := 1%float; Crawler.timeout := 30;
     Crawler.session := true;
     Crawler.stats := {| Crawler.success := 0; Crawler.failed := 0;
                         Crawler.total_time := 0%float |} |}.

Definition world_of (t : Crawler.transport) : Crawler.world :=
  {| Crawler.net := t; Crawler.t_start := 10%float;
     Crawler.t_response := 11%float; Crawler.t_done := 12%float |}.

Definition page_ok : Crawler.world :=
  world_of (Crawler.Response 200 (Crawler.BodyText (lit "<h1></h1>"))).
Definition page_missing : Crawler.world :=
  world_of (Crawler.Response 404 (Crawler.BodyText (lit "not found"))).
Definition page_timeout : Crawler.world :=
  world_of (Crawler.NoResponse TimeoutError).

Definition sample_tasks : list (pystr * Crawler.world) :=
  [(lit "http://a.example/", page_ok);
   (lit "http://b.example/", page_missing);
   (lit "http://c.example/", page_timeout);
   (lit "http://d.example/", page_ok)].

Definition sample_row : Db.Row :=
  {| Db.id := 1; Db.title := lit "Old title"; Db.url := lit "http://a.example/";
     Db.content := Some (lit "old text"); Db.source := Some (lit "quotes");
     Db.category := None; Db.fetched_at := Some (lit "2024-04-30T08:00:00");
     Db.created_at := lit "2024-04-30 08:00:00" |}.

Definition sample_db : Db.Database := {| Db.rows := [sample_row]; Db.seq := 1 |}.

Definition sample_env : Db.db_env :=
  {| Db.engine_event := Db.Healthy; Db.now := lit "2024-05-01 12:00:00" |}.

(** The tree of a page with a heading and a paragraph. *)
Definition news_page (text : pystr) : node :=
  NElem "[document]" [] []
    [NElem "html" [] []
       [NElem "body" [] []
          [NElem "h1" [] [] [NText (lit " News ")];
           NElem "p" [] [] [NText text]]]].

(** A parser that knows two versions of one page. *)
Definition news_parse (html : pystr) : node :=
  if decide (html = lit "v1") then news_page (lit "first version")
  else if decide (html = lit "v2") then news_page (lit "second version")
  else blank_page.

Definition page_version (body : string) : Crawler.world :=
  world_of (Crawler.Response 200 (Crawler.BodyText (lit body))).

Definition healthy_engine (k : nat) : Db.db_env := sample_env.

(** An engine that fails the statement of its second call. *)
Definition sample_engine (k : nat) : Db.db_env :=
  {| Db.engine_event := if (k =? 1)%nat then Db.ExecuteFails else Db.Healthy;
     Db.now := lit "2024-05-01 12:00:00" |}.

Definition sample_article : Crawler.Article :=
  {| Crawler.title := lit "A title"; Crawler.url := lit "http://a.example/";
     Crawler.content := replicate 2001 120%N; Crawler.fetched_at := 12%float;
     Crawler.status := 200 |}.

(** One task of five inside the body, on a semaphore built with 1. *)
Definition one_in_flight : Gate.state :=
  {| Gate.value := 0;
     Gate.phases := [Gate.Holding; Gate.Waiting; Gate.Waiting; Gate.Waiting; Gate.Waiting] |}.

(** The outcome of fetching the page [<h1></h1>]. *)
Definition empty_title_article : Crawler.Article :=
  {| Crawler.title := []; Crawler.url := lit "http://a.example/"; Crawler.content := [];
     Crawler.fetched_at := 12%float; Crawler.status := 200 |}.

(** An engine's ORDER BY created_at DESC: a merge sort. *)
Definition newer_first_dec : RelDecision Queries.newer_first :=
  fun r1 r2 => decide (Queries.str_le (Db.created_at r2) (Db.created_at r1) = true).

Definition sample_order : list Db.Row -> list Db.Row :=
  @merge_sort _ Queries.newer_first newer_first_dec.

(** An age test for which the rows fetched before May 2024 are old. *)
Definition sample_is_old (days : Z) (r : Db.Row) : bool :=
  match Db.fetched_at r with
  | Some f => negb (Queries.str_le (lit "2024-05-01") f)
  | None => false
  end.

(** The dict of an article the sample table does not hold. *)
Definition sample_record : gmap string Db.pyval :=
  Db.record (lit "New title") (lit "http://e.example/") (lit "new text")
    (lit "quotes") (lit "2024-05-01T12:00:00").


(** A function that times out twice and then returns 7. *)
Definition flaky (k : nat) : outcome Z :=
  if (k <? 2)%nat then Raises TimeoutError else Returns 7.

(** [exceptions=(Exception,)]. *)
Definition any_exception (e : exn) : bool := true.

(** A table with an article of the source quotes and one without source. *)
Definition mixed_db : Db.Database :=
  {| Db.rows :=
       [sample_row;
        {| Db.id := 2; Db.title := lit "No source"; Db.url := lit "http://b.example/";
           Db.content := None; Db.source := None; Db.category := None;
           Db.fetched_at := None; Db.created_at := lit "2024-05-01 09:00:00" |}];
     Db.seq := 2 |}.

End Samples.

(** * Properties *)

(** ** Slices *)

Lemma len_nonneg (s : pystr) : 0 <= len s.
Proof. unfold len. lia. Qed.

Lemma len_slice_to (n : Z) (s : pystr) :
  0 <= n -> len (slice_to n s) = Z.min n (len s).
Proof.
  intros Hn. unfold slice_to.
  destruct (Z.ltb_spec n 0) as [Hneg|_]; [lia|].
  unfold len. rewrite length_take. lia.
Qed.

Lemma slice_to_short (n : Z) (s : pystr) :
  0 <= n -> len s <= n -> slice_to n s = s.
Proof.
  intros Hn Hs. unfold slice_to.
  destruct (Z.ltb_spec n 0) as [Hneg|_]; [lia|].
  apply take_ge. unfold len in Hs. lia.
Qed.

Lemma slice_to_cases (n : Z) (s : pystr) :
  0 <= n ->
  if n <? len s then len (slice_to n s) = n else slice_to n s = s.
Proof.
  intros Hn. destruct (Z.ltb_spec n (len s)) as [Hlt|Hge].
  - rewrite len_slice_to by done. lia.
  - by apply slice_to_short.
Qed.

(** ** The record mapper *)

(** C5: the record made from an outcome and a source label holds a content
    of exactly 2000 code points when the outcome's content is longer than
    that and the outcome's content itself otherwise; its title is cut the
    same way at 200; its url is the outcome's url, whole; its source is the
    label. *)
Theorem article_to_record_truncation
    (isoformat : float -> pystr) (article : Crawler.Article) (source : pystr) :
  exists t c : pystr,
    let record := Pipeline.article_to_record isoformat article source in
    record !! "content" = Some (Db.PyStr c)
    /\ (if 2000 <? len (Crawler.content article)
        then len c = 2000
        else c = Crawler.content article)
    /\ record !! "title" = Some (Db.PyStr t)
    /\ len t <= 200
    /\ (if 200 <? len (Crawler.title article)
        then len t = 200
        else t = Crawler.title article)
    /\ record !! "url" = Some (Db.PyStr (Crawler.url article))
    /\ record !! "source" = Some (Db.PyStr source).
Proof.
  exists (slice_to 200 (Crawler.title article)),
         (slice_to 2000 (Crawler.content article)).
  cbv zeta. unfold Pipeline.article_to_record.
  repeat split; try (by simplify_map_eq).
  - by apply slice_to_cases.
  - rewrite len_slice_to by lia. lia.
  - by apply slice_to_cases.
Qed.


(** ** The store *)

Section StoreFacts.
Import Db.

Lemma find_url_Some (u : pystr) (rws : list Row) (r : Row) :
  find_url u rws = Some r -> r ∈ rws /\ url r = u.
Proof.
  induction rws as [|x rws IH]; simpl; [done|].
  destruct (decide (url x = u)) as [Hx|Hx].
  - intros [= <-]. split; [apply list_elem_of_here|done].
  - intros H. destruct (IH H) as [Hin Hu]. split; [by apply list_elem_of_further|done].
Qed.

Lemma find_url_None (u : pystr) (rws : list Row) :
  find_url u rws = None <-> u ∉ map url rws.
Proof.
  induction rws as [|x rws IH]; simpl.
  - split; [intros _; apply not_elem_of_nil|done].
  - destruct (decide (url x = u)) as [Hx|Hx].
    + split; [done|]. intros H. exfalso. apply H. rewrite Hx. apply list_elem_of_here.
    + rewrite IH, not_elem_of_cons. split; [intros H; split; [congruence|done]|by intros [_ H]].
Qed.


Lemma max_id_ge (r : Row) (rws : list Row) : r ∈ rws -> id r <= max_id rws.
Proof.
  induction rws as [|x rws IH]; simpl; intros Hin.
  - by apply elem_of_nil in Hin.
  - apply elem_of_cons in Hin as [->|Hin]; [lia|]. specialize (IH Hin). lia.
Qed.

Lemma max_id_nonneg (rws : list Row) : 0 <= max_id rws.
Proof. induction rws as [|x rws IH]; simpl; lia. Qed.

Lemma update_url_ids (u t : pystr) (c f : option pystr) (rws : list Row) :
  map id (update_url u t c f rws) = map id rws.
Proof.
  unfold update_url. rewrite map_map. apply map_ext. intros r.
  by destruct (decide (url r = u)).
Qed.

Lemma update_url_urls (u t : pystr) (c f : option pystr) (rws : list Row) :
  map url (update_url u t c f rws) = map url rws.
Proof.
  unfold update_url. rewrite map_map. apply map_ext. intros r.
  by destruct (decide (url r = u)).
Qed.

Lemma update_url_absent (u t : pystr) (c f : option pystr) (rws : list Row) :
  u ∉ map url rws -> update_url u t c f rws = rws.
Proof.
  induction rws as [|x rws IH]; simpl; [done|].
  intros H. apply not_elem_of_cons in H as [Hx Hrest].
  rewrite decide_False by done. by rewrite IH.
Qed.

Lemma filter_url_absent (u : pystr) (rws : list Row) :
  u ∉ map url rws -> filter (fun x => url x = u) rws = [].
Proof.
  induction rws as [|x rws IH]; simpl; [done|].
  intros H. apply not_elem_of_cons in H as [Hx Hrest].
  rewrite filter_cons_False by done. by apply IH.
Qed.

(** Under the UNIQUE constraint the DO UPDATE clause leaves one row with
    the url: the old one with its three columns replaced. *)
Lemma update_url_filter (u t : pystr) (c f : option pystr) (rws : list Row) (r : Row) :
  NoDup (map url rws) -> r ∈ rws -> url r = u ->
  filter (fun x => url x = u) (update_url u t c f rws) = [set_row t c f r].
Proof.
  induction rws as [|x rws IH]; simpl; intros Hnd Hin Hu.
  - by apply elem_of_nil in Hin.
  - apply NoDup_cons in Hnd as [Hx Hnd].
    apply elem_of_cons in Hin as [->|Hin].
    + rewrite decide_True by done. rewrite filter_cons_True by done.
      f_equal. rewrite update_url_absent by (by rewrite <- Hu).
      apply filter_url_absent. by rewrite <- Hu.
    + assert (url x <> u) as Hxu.
      { intros Hxu. apply Hx. rewrite Hxu, <- Hu. by apply list_elem_of_fmap_2. }
      rewrite decide_False by done. rewrite filter_cons_False by done. by apply IH.
Qed.

Lemma upsert_record (db : Database) (t u c s f now : pystr) :
  upsert db (record t u c s f) now =
  let new_id := Z.max (seq db) (max_id (rows db)) + 1 in
  match find_url u (rows db) with
  | Some r =>
      Some (id r, {| rows := update_url u t (Some c) (Some f) (rows db); seq := new_id |})
  | None =>
      Some (new_id,
            {| rows := rows db ++
                 [{| id := new_id; title := t; url := u; content := Some c;
                     source := Some s; category := None;
                     fetched_at := Some f; created_at := now |}];
               seq := new_id |})
  end.
Proof. unfold upsert, record. by simplify_map_eq. Qed.

(** What a statement that did not fail has done: updated the row that held
    the url, or appended a row under the candidate rowid. *)
Lemma upsert_inv (db : Database) (article : gmap string pyval) (now : pystr)
    (i : Z) (db' : Database) :
  upsert db article now = Some (i, db') ->
  exists (t u : pystr) (c s f : pyval),
    article !! "title" = Some (PyStr t) /\ article !! "url" = Some (PyStr u)
    /\ article !! "content" = Some c /\ article !! "source" = Some s
    /\ article !! "fetched_at" = Some f
    /\ seq db' = Z.max (seq db) (max_id (rows db)) + 1
    /\ ((exists r, find_url u (rows db) = Some r /\ i = id r
           /\ rows db' = update_url u t (to_sql c) (to_sql f) (rows db))
        \/ (find_url u (rows db) = None /\ i = seq db'
            /\ rows db' = rows db ++
                 [{| id := i; title := t; url := u; content := to_sql c;
                     source := to_sql s; category := None;
                     fetched_at := to_sql f; created_at := now |}])).
Proof.
  unfold upsert. intros H.
  destruct (article !! "title") as [[|t]|]; simpl in H; try discriminate.
  - by repeat (match type of H with
               | context [mbind _ ?o] => destruct o; simpl in H
               end).
  - destruct (article !! "url") as [[|u]|]; simpl in H; try discriminate.
    + by repeat (match type of H with
                 | context [mbind _ ?o] => destruct o; simpl in H
                 end).
    + destruct (article !! "content") as [c|]; simpl in H; [|discriminate].
      destruct (article !! "source") as [s|]; simpl in H; [|discriminate].
      destruct (article !! "fetched_at") as [f|]; simpl in H; [|discriminate].
      exists t, u, c, s, f. repeat (split; [done|]).
      destruct (find_url u (rows db)) as [r|] eqn:Hfind; injection H as <- <-; simpl.
      * split; [done|]. left. by exists r.
      * split; [done|]. by right.
Qed.

Lemma upsert_ok (db : Database) (article : gmap string pyval) (now : pystr)
    (i : Z) (db' : Database) :
  db_ok db -> upsert db article now = Some (i, db') -> db_ok db' /\ 1 <= i.
Proof.
  intros [Hurls Hids Hpos Hseq] H.
  apply upsert_inv in H
    as (t & u & c & s & f & _ & _ & _ & _ & _ & Hs & [(r & Hfind & -> & Hrows)|(Hfind & -> & Hrows)]).
  - apply find_url_Some in Hfind as [Hin _]. split.
    + split.
      * by rewrite Hrows, update_url_urls.
      * by rewrite Hrows, update_url_ids.
      * by rewrite Hrows, update_url_ids.
      * pose proof (max_id_nonneg (rows db)). lia.
    + rewrite Forall_forall in Hpos. apply Hpos. by apply list_elem_of_fmap_2.
  - pose proof (max_id_nonneg (rows db)) as Hm.
    apply find_url_None in Hfind. split; [|lia]. split.
    + rewrite Hrows, map_app. simpl. apply NoDup_app. repeat split; [done| |apply NoDup_singleton].
      intros x Hx Hx'. apply list_elem_of_singleton in Hx'. by subst.
    + rewrite Hrows, map_app. simpl. apply NoDup_app. repeat split; [done| |apply NoDup_singleton].
      intros x Hx Hx'. apply list_elem_of_singleton in Hx'. subst x.
      apply list_elem_of_fmap in Hx as (r & Hr & Hin). apply max_id_ge in Hin. lia.
    + rewrite Hrows, map_app. apply Forall_app. split; [done|].
      simpl. apply Forall_singleton. lia.
    + lia.
Qed.

(** The invariant of the table survives [insert_article], however the call
    ends, and an identifier it returns is positive. *)
Lemma insert_article_ok (db : Database) (article : gmap string pyval) (env : db_env)
    (res : outcome (option Z)) (db' : Database) :
  db_ok db -> insert_article db article env = (res, db') ->
  db_ok db' /\ (forall i, res = Returns (Some i) -> 1 <= i).
Proof.
  intros Hok. unfold insert_article.
  destruct (engine_event env); try (intros [= <- <-]; by split).
  - destruct (upsert db article (now env)) as [[i d]|] eqn:Hup; intros [= <- <-].
    + apply upsert_ok in Hup as [Hok' Hi]; [|done]. split; [done|]. by intros ? [= <-].
    + by split.
  - destruct (upsert db article (now env)) as [[i d]|] eqn:Hup; intros [= <- <-]; by split.
Qed.


End StoreFacts.

Section Upsert.
Import Db.

Lemma insert_article_record (db : Database) (t u c s f nw : pystr) :
  insert_article db (record t u c s f) {| engine_event := Healthy; now := nw |} =
  match find_url u (rows db) with
  | Some r =>
      (Returns (Some (id r)),
       {| rows := update_url u t (Some c) (Some f) (rows db);
          seq := Z.max (seq db) (max_id (rows db)) + 1 |})
  | None =>
      let i := Z.max (seq db) (max_id (rows db)) + 1 in
      (Returns (Some i),
       {| rows := rows db ++
            [{| id := i; title := t; url := u; content := Some c;
                source := Some s; category := None;
                fetched_at := Some f; created_at := nw |}];
          seq := i |})
  end.
Proof.
  unfold insert_article. simpl. rewrite upsert_record. cbv zeta.
  by destruct (find_url u (rows db)).
Qed.




(** C6: whatever the call does, every row of the table is still there
    afterwards, at its place, with the identifier, url, creation timestamp,
    source and category it had; a row whose url is not the one inserted is
    unchanged altogether. *)
Theorem insert_article_frame
    (db : Database) (article : gmap string pyval) (env : db_env)
    (res : outcome (option Z)) (db' : Database) (k : nat) (r : Row) :
  insert_article db article env = (res, db') ->
  rows db !! k = Some r ->
  exists r', rows db' !! k = Some r'
    /\ id r' = id r /\ url r' = url r /\ created_at r' = created_at r
    /\ source r' = source r /\ category r' = category r
    /\ (article !! "url" <> Some (PyStr (url r)) -> r' = r).
Proof.
  intros Hins Hk.
  assert (db' = db \/ exists i, upsert db article (now env) = Some (i, db')) as [->|[i Hup]].
  { revert Hins. unfold insert_article.
    destruct (engine_event env); try (intros [= <- <-]; by left);
      destruct (upsert db article (now env)) as [[i d]|]; intros [= <- <-];
      (by left) || (right; by exists i). }
  { exists r. by repeat split. }
  apply upsert_inv in Hup
    as (t & u & c & s & f & _ & Hurl & _ & _ & _ & _ & [(r0 & _ & _ & Hrows)|(_ & _ & Hrows)]).
  - rewrite Hrows. unfold update_url. rewrite list_lookup_fmap, Hk. simpl.
    destruct (decide (url r = u)) as [Hu|Hu].
    + eexists. split; [done|]. repeat (split; [done|]).
      intros Hne. exfalso. apply Hne. by rewrite Hurl, Hu.
    + exists r. by repeat split.
  - exists r. split; [|by repeat split].
    rewrite Hrows. by apply lookup_app_l_Some.
Qed.

End Upsert.

(** ** The fetch unit *)

Section FetchFacts.
Import Crawler.

Variable parse : pystr -> node.

(** The handlers of [fetch_one] turn every exception of the [try] block
    into [None] and one more failure. *)
Lemma fetch_one_handlers (c : AsyncCrawler) (u : pystr) (w : world) (e : exn) (s : Stats) :
  1 <= semaphore c ->
  try_fetch parse c u w = (Raises e, s) ->
  fetch_one parse c u w = (Returns None, with_stats c (count_failed s)).
Proof.
  intros Hsem Htry. unfold fetch_one.
  destruct (Z.ltb_spec (semaphore c) 1); [lia|].
  rewrite Htry. by destruct e.
Qed.

Lemma try_fetch_not_blocked (c : AsyncCrawler) (u : pystr) (w : world) :
  fst (try_fetch parse c u w) <> Blocks.
Proof.
  unfold try_fetch. destruct (session c); simpl; [|done].
  destruct (net w) as [e|code b]; [done|].
  destruct (code =? 200); simpl; [|done]. by destruct b.
Qed.

(** With a permit to take, [fetch_one] returns. *)
Lemma fetch_one_returns (c : AsyncCrawler) (u : pystr) (w : world) :
  1 <= semaphore c ->
  exists r c', fetch_one parse c u w = (Returns r, c')
    /\ semaphore c' = semaphore c /\ session c' = session c.
Proof.
  intros Hsem. pose proof (try_fetch_not_blocked c u w) as Hnb.
  destruct (try_fetch parse c u w) as [[a|e|] s] eqn:Htry; [| |done].
  - unfold fetch_one. destruct (Z.ltb_spec (semaphore c) 1); [lia|].
    rewrite Htry. by eexists _, _.
  - rewrite (fetch_one_handlers c u w e s) by done. by eexists _, _.
Qed.

(** What a fetch returns does not depend on the counters. *)
Lemma fetch_one_result (c1 c2 : AsyncCrawler) (u : pystr) (w : world) :
  semaphore c1 = semaphore c2 -> session c1 = session c2 ->
  fst (fetch_one parse c1 u w) = fst (fetch_one parse c2 u w).
Proof.
  intros Hsem Hses. unfold fetch_one, try_fetch. rewrite Hsem, Hses.
  destruct (semaphore c2 <? 1); [done|].
  destruct (session c2); simpl; [|done].
  destruct (net w) as [e|code b]; [by destruct e|].
  destruct (code =? 200); simpl; [|done].
  destruct b as [html|e]; [done|by destruct e].
Qed.


(** C9: the body of a response with status 200 reaches parsing and
    extraction cut to 1,000,000 code points: the text parsed has at most
    that length, is a prefix of the body and is the whole body when that is
    short enough; the title and the content of the outcome are extracted
    from the parse of that text; and the fetch returns an outcome with
    status 200 and counts a success whatever the length of the body. *)
Theorem body_cut_before_extraction
    (c : AsyncCrawler) (u html : pystr) (w : world) :
  1 <= semaphore c -> session c = true ->
  net w = Response 200 (BodyText html) ->
  len (read_html html) <= 1000000
  /\ read_html html = slice_to 1000000 html
  /\ (len html <= 1000000 -> read_html html = html)
  /\ exists c',
       fetch_one parse c u w =
         (Returns (Some {| title := _extract_title (parse (read_html html));
                           url := u;
                           content := _extract_content (parse (read_html html));
                           fetched_at := t_done w;
                           status := 200 |}), c')
       /\ success (stats c') = success (stats c) + 1
       /\ failed (stats c') = failed (stats c).
Proof.
  intros Hsem Hses Hnet.
  assert (read_html html = slice_to 1000000 html) as Hcut.
  { unfold read_html. destruct (Z.ltb_spec 1000000 (len html)); [done|].
    symmetry. apply slice_to_short; lia. }
  repeat split.
  - rewrite Hcut, len_slice_to by lia. lia.
  - done.
  - intros Hlen. rewrite Hcut. apply slice_to_short; lia.
  - unfold fetch_one, try_fetch.
    destruct (Z.ltb_spec (semaphore c) 1); [lia|].
    rewrite Hses, Hnet. simpl. by eexists.
Qed.

Lemma first_selected_None (soup : node) (sels : list selector) :
  first_selected soup sels = None <->
  Forall (fun sel => select_one soup sel = None) sels.
Proof.
  induction sels as [|sel sels IH]; simpl.
  - split; [intros _; apply Forall_nil_2|done].
  - rewrite Forall_cons. destruct (select_one soup sel) as [tag|].
    + split; [done|]. by intros [? _].
    + rewrite IH. split; [by split|by intros [_ ?]].
Qed.

Lemma extract_title_bound (soup : node) : len (_extract_title soup) <= 200.
Proof.
  unfold _extract_title. destruct (first_selected soup title_selectors).
  - rewrite len_slice_to by lia. lia.
  - by vm_compute.
Qed.

Lemma extract_content_bound (soup : node) : len (_extract_content soup) <= 10000.
Proof.
  unfold _extract_content. cbv zeta.
  destruct (first_selected _ content_selectors).
  - rewrite len_slice_to by lia. lia.
  - destruct (find_all ["p"] _); rewrite len_slice_to by lia; lia.
Qed.

(** What an outcome with status 200 holds. *)
Lemma fetch_one_success (c c' : AsyncCrawler) (u : pystr) (w : world) (a : Article) :
  fetch_one parse c u w = (Returns (Some a), c') -> status a = 200 ->
  exists html, net w = Response 200 (BodyText html)
    /\ title a = _extract_title (parse (read_html html))
    /\ content a = _extract_content (parse (read_html html)).
Proof.
  unfold fetch_one, try_fetch.
  destruct (semaphore c <? 1); [done|].
  destruct (session c); simpl; [|done].
  destruct (net w) as [e|code b]; [by destruct e|].
  destruct (Z.eqb_spec code 200) as [->|Hcode]; simpl.
  - destruct b as [html|e]; [|by destruct e].
    intros [= <- <-] _. by exists html.
  - intros [= <- <-]. simpl. done.
Qed.

(** C10, as the code has it: the title of an outcome with status 200 has at
    most 200 code points and its content at most 10000; the title is the
    three-code-point placeholder when no title selector selects a tag, and
    otherwise the stripped text of the first tag selected, cut to 200, which
    is empty when that tag holds no text. *)
Theorem extraction_bounds
    (c c' : AsyncCrawler) (u : pystr) (w : world) (a : Article) :
  fetch_one parse c u w = (Returns (Some a), c') -> status a = 200 ->
  len (title a) <= 200
  /\ len (content a) <= 10000
  /\ exists html,
       net w = Response 200 (BodyText html)
       /\ match first_selected (parse (read_html html)) title_selectors with
          | None => title a = no_title /\ len (title a) = 3
          | Some tag => title a = slice_to 200 (get_text [] true tag)
          end.
Proof.
  intros Hfetch Hst.
  destruct (fetch_one_success c c' u w a Hfetch Hst) as (html & Hnet & Ht & Hc).
  rewrite Ht, Hc. split; [apply extract_title_bound|].
  split; [apply extract_content_bound|].
  exists html. split; [done|]. unfold _extract_title.
  by destruct (first_selected (parse (read_html html)) title_selectors).
Qed.

End FetchFacts.

(** ** The batch fetcher *)

Section BatchFacts.
Import Crawler.

Variable parse : pystr -> node.



Lemma keep_articles_app (r1 r2 : list gathered) :
  keep_articles (r1 ++ r2) = keep_articles r1 ++ keep_articles r2.
Proof.
  induction r1 as [|r r1 IH]; simpl; [done|].
  destruct r as [[b|]|e]; [|done..].
  destruct (status b =? 200); [|done]. by rewrite IH.
Qed.

(** With a permit to take, every task of the batch ends, and the batch
    returns what the tasks delivered, in their order. *)
Lemma fetch_many_delivered (c0 c : AsyncCrawler) (tasks : list (pystr * world)) :
  1 <= semaphore c0 -> semaphore c = semaphore c0 -> session c = session c0 ->
  exists c', fetch_many parse c tasks = (Returns (omap (delivered parse c0) tasks), c')
    /\ semaphore c' = semaphore c0 /\ session c' = session c0.
Proof.
  intros Hsem. unfold fetch_many. revert c.
  induction tasks as [|[u w] tasks IH]; intros c Hc1 Hc2; simpl.
  - by exists c.
  - destruct (fetch_one_returns parse c u w) as (r & c1 & Heq & Hs1 & Hs2); [lia|].
    assert (delivered parse c0 (u, w) =
            match r with
            | Some a => if status a =? 200 then Some a else None
            | None => None
            end) as Hd.
    { unfold delivered. simpl.
      by rewrite <- (fetch_one_result parse c c0 u w), Heq by done. }
    rewrite Heq, Hd.
    destruct (IH c1) as (c' & IHeq & Hs1' & Hs2'); [congruence..|].
    destruct (run_tasks parse c1 tasks) as [rs c2].
    injection IHeq as IHeq ->. exists c'. split; [|done].
    f_equal. simpl.
    destruct (gather rs) as [gs| |]; simpl in *; [|done..].
    injection IHeq as IHeq. change (list_omap _ _ (delivered parse c0) tasks)
      with (omap (delivered parse c0) tasks). rewrite <- IHeq. f_equal.
    destruct r as [a|]; [|done]. by destruct (status a =? 200).
Qed.



End BatchFacts.

(** ** The admission gate *)

Section GateFacts.
Import Gate.

Lemma count_nonneg (f : phase -> bool) (ps : list phase) : 0 <= count f ps.
Proof. induction ps as [|p ps IH]; simpl; [lia|]. destruct (f p); lia. Qed.

Lemma count_le_length (f : phase -> bool) (ps : list phase) :
  count f ps <= Z.of_nat (length ps).
Proof. induction ps as [|p ps IH]; simpl; [lia|]. destruct (f p); lia. Qed.

(** Replacing the phase of one task moves a count by that task alone. *)
Lemma count_insert (f : phase -> bool) (ps : list phase) (i : nat) (p q : phase) :
  ps !! i = Some p ->
  count f (<[i := q]> ps) = count f ps - b2z (f p) + b2z (f q).
Proof.
  revert i. induction ps as [|x ps IH]; intros i Hi; [done|].
  destruct i as [|i]; simpl in *.
  - injection Hi as ->. unfold b2z. destruct (f p), (f q); lia.
  - rewrite (IH i Hi). lia.
Qed.

Lemma count_replicate_waiting (N : nat) : count is_holding (replicate N Waiting) = 0.
Proof. induction N as [|N IH]; simpl; [done|]. by rewrite IH. Qed.

Lemma gate_inv_start (K : Z) (N : nat) : 0 <= K -> gate_inv K N (start K N).
Proof.
  intros HK. unfold gate_inv, holding. simpl.
  rewrite count_replicate_waiting, length_replicate. lia.
Qed.

Lemma gate_inv_step (K : Z) (N : nat) (s s' : state) :
  gate_inv K N s -> step s s' -> gate_inv K N s'.
Proof.
  intros (Hsum & Hval & Hlen) Hstep. unfold gate_inv, holding in *.
  destruct Hstep as [s i Hi Hpos|s i how Hi]; simpl;
    rewrite (count_insert _ _ _ _ _ Hi), length_insert; simpl.
  - lia.
  - pose proof (count_nonneg is_holding (phases s)). lia.
Qed.

Lemma gate_inv_reachable (K : Z) (N : nat) (s : state) :
  0 <= K -> reachable K N s -> gate_inv K N s.
Proof.
  intros HK Hreach. induction Hreach as [|s s' _ IH Hstep].
  - by apply gate_inv_start.
  - by eapply gate_inv_step.
Qed.

(** Every task inside the body can leave it, on any path, and leaving it
    returns the permit. *)
Lemma release_enabled (s : state) (i : nat) (how : exit_path) :
  phases s !! i = Some Holding ->
  let s' := {| value := value s + 1; phases := <[i := Left how]> (phases s) |} in
  step s s' /\ holding s' = holding s - 1 /\ phases s' !! i = Some (Left how).
Proof.
  intros Hi. cbv zeta. split; [by apply step_release|]. split.
  - unfold holding. simpl. rewrite (count_insert _ _ _ _ _ Hi). simpl. lia.
  - simpl. apply list_lookup_insert_eq. by eapply lookup_lt_Some.
Qed.

(** A step that takes a task out of the body, on whichever path, adds one
    to the semaphore. *)
Lemma leaving_releases (s s' : state) (i : nat) (how : exit_path) :
  step s s' -> phases s !! i = Some Holding -> phases s' !! i = Some (Left how) ->
  value s' = value s + 1.
Proof.
  intros Hstep Hi Hi'. destruct Hstep as [s j Hj Hpos|s j how' Hj]; simpl in *; [|done].
  exfalso. destruct (decide (i = j)) as [->|Hne].
  - congruence.
  - rewrite list_lookup_insert_ne in Hi' by done. congruence.
Qed.


(** C7: in every state a batch of [N >= 1] tasks can reach on a semaphore
    built with [K >= 1], under any interleaving, at most [K] tasks are
    between acquire and release; the permits in the semaphore and those with
    such tasks add up to [K]; every task between acquire and release can
    leave on every exit path (an outcome returned, [None] returned, an
    exception passing through), and every step by which it leaves puts its
    permit back; so once all tasks have left, the semaphore holds [K]
    again. *)
Theorem at_most_K_in_flight (K : Z) (N : nat) (s : state) :
  1 <= K -> (1 <= N)%nat -> reachable K N s ->
  holding s <= K
  /\ value s + holding s = K
  /\ (forall i how, phases s !! i = Some Holding ->
        exists s', step s s' /\ reachable K N s'
          /\ phases s' !! i = Some (Left how)
          /\ value s' = value s + 1 /\ holding s' = holding s - 1)
  /\ (forall s' i how, step s s' -> phases s !! i = Some Holding ->
        phases s' !! i = Some (Left how) -> value s' = value s + 1)
  /\ (Forall (fun p => is_left p = true) (phases s) -> value s = K).
Proof.
  intros HK HN Hreach.
  destruct (gate_inv_reachable K N s) as (Hsum & Hval & Hlen); [lia|done|].
  split; [lia|]. split; [done|]. split; [|split].
  - intros i how Hi.
    destruct (release_enabled s i how Hi) as (Hstep & Hhold & Hph).
    eexists. split; [exact Hstep|]. split; [by eapply reach_step|]. by split.
  - intros s' i how Hstep Hi Hi'. by eapply leaving_releases.
  - intros Hall. cut (holding s = 0); [lia|]. unfold holding. clear Hlen.
    induction Hall as [|p ps Hp _ IH]; simpl; [done|].
    rewrite IH. by destruct p.
Qed.


(** A semaphore built with 0 admits no task, ever. *)
Lemma gate_zero_stuck (N : nat) (s : state) :
  reachable 0 N s -> s = start 0 N /\ holding s = 0.
Proof.
  intros Hreach. induction Hreach as [|s s' _ [-> Hh] Hstep].
  - split; [done|]. apply count_replicate_waiting.
  - exfalso. inversion Hstep as [s0 i Hi Hpos|s0 i how Hi]; subst.
    + simpl in Hpos. lia.
    + simpl in Hi. apply lookup_replicate in Hi as [? _]. done.
Qed.

End GateFacts.

(** ** The coordinator *)

Section PipelineFacts.
Import Pipeline.

Variable parse : pystr -> node.
Variable isoformat : float -> pystr.

(** A batch on a semaphore without a permit never completes, unless it is
    empty. *)
Lemma fetch_many_blocks (c : Crawler.AsyncCrawler) (tasks : list (pystr * Crawler.world)) :
  Crawler.semaphore c < 1 -> tasks <> [] ->
  Crawler.fetch_many parse c tasks = (Blocks, c).
Proof.
  intros Hsem Hne. destruct tasks as [|[u w] tasks]; [done|].
  unfold Crawler.fetch_many. simpl.
  assert (forall ts, exists rs, Crawler.run_tasks parse c ts = (rs, c)) as Hrun.
  { induction ts as [|[u' w'] ts [rs IH]]; simpl; [by eexists|].
    unfold Crawler.fetch_one. destruct (Z.ltb_spec (Crawler.semaphore c) 1); [|lia].
    rewrite IH. by eexists. }
  unfold Crawler.fetch_one at 1. destruct (Z.ltb_spec (Crawler.semaphore c) 1); [|lia].
  destruct (Hrun tasks) as [rs ->]. done.
Qed.



(** A concurrency of 0 is accepted: the crawler is constructed with a
    semaphore that holds no permit; the pipeline raises nothing, and with a
    batch that is not empty it never returns. *)
Lemma zero_concurrency_blocks
    (db : Db.Database) (tasks : list (pystr * Crawler.world)) (source : pystr)
    (delay : float) (engine : nat -> Db.db_env) :
  (exists c, Crawler.__init__ 0 delay 30 = Returns c /\ Crawler.semaphore c = 0)
  /\ (tasks <> [] ->
      crawl_and_store parse isoformat db tasks source 0 delay engine = (Blocks, db))
  /\ (tasks = [] ->
      crawl_and_store parse isoformat db tasks source 0 delay engine
      = (Returns {| total := 0; success := 0; failed := 0; stored := 0 |}, db)).
Proof.
  split; [by eexists|]. split.
  - intros Hne. unfold crawl_and_store. simpl. by rewrite fetch_many_blocks.
  - by intros ->.
Qed.

(** C8, as the code has it: a negative concurrency is refused when the
    crawler is constructed, with [ValueError] from the semaphore, whatever the
    delay and the timeout; the pipeline then ends with that error before any
    fetch, whatever the batch, and leaves the store as it was. *)
Theorem negative_concurrency_refused
    (db : Db.Database) (tasks : list (pystr * Crawler.world)) (source : pystr)
    (K timeout : Z) (delay : float) (engine : nat -> Db.db_env) :
  K < 0 ->
  Crawler.__init__ K delay timeout = Raises ValueError
  /\ crawl_and_store parse isoformat db tasks source K delay engine
     = (Raises ValueError, db).
Proof.
  intros Hneg. unfold crawl_and_store, Crawler.__init__, Crawler.Semaphore.
  by destruct (Z.ltb_spec K 0); [|lia].
Qed.

(** The storing loop keeps the table's constraints, asks the store once for
    every outcome with status 200, and counts the identifiers it got. *)
Lemma store_articles_spec (source : pystr) (engine : nat -> Db.db_env)
    (articles : list Crawler.Article) :
  forall (call : nat) (db : Db.Database) (n0 : Z)
         (r : outcome (Z * list (option Z))) (db' : Db.Database),
    Db.db_ok db ->
    store_articles isoformat source articles engine call db n0 = (r, db') ->
    Db.db_ok db'
    /\ forall n ids, r = Returns (n, ids) ->
         n = n0 + Z.of_nat (length (filter is_Some ids))
         /\ length ids = length (filter (fun a => Crawler.status a = 200) articles)
         /\ Forall (fun i => i <> Some 0) ids.
Proof.
  induction articles as [|a articles IH]; intros call db n0 r db' Hok; simpl.
  - intros [= <- <-]. split; [done|]. intros n ids [= <- <-]. simpl.
    split; [lia|]. by split.
  - destruct (Z.eqb_spec (Crawler.status a) 200) as [Ha|Ha].
    + rewrite filter_cons_True by done.
      destruct (Db.insert_article db (article_to_record isoformat a source) (engine call))
        as [[aid| |] d] eqn:Hins.
      * destruct (insert_article_ok _ _ _ _ _ Hok Hins) as [Hok1 Hpos].
        destruct (store_articles isoformat source articles engine (S call) d
                    (if truthy aid then n0 + 1 else n0)) as [r1 d1] eqn:Hrest.
        intros [= <- <-].
        destruct (IH _ _ _ _ _ Hok1 Hrest) as [Hok2 Hspec]. split; [done|].
        intros n ids Hr. destruct r1 as [[n1 ids1]| |]; simpl in Hr; try done.
        injection Hr as <- <-.
        destruct (Hspec n1 ids1 eq_refl) as (Hn & Hlen & Hnz).
        destruct aid as [i|]; unfold truthy in Hn.
        -- specialize (Hpos i eq_refl).
           rewrite filter_cons_True by done.
           destruct (Z.eqb_spec i 0); [lia|]. simpl in *.
           split; [lia|]. split; [by rewrite Hlen|].
           apply Forall_cons. split; [|done]. intros [=]. lia.
        -- rewrite filter_cons_False by (by intros [? ?]). simpl.
           split; [lia|]. split; [by rewrite Hlen|]. by apply Forall_cons.
      * intros [= <- <-]. split; [|done].
        by destruct (insert_article_ok _ _ _ _ _ Hok Hins).
      * intros [= <- <-]. split; [|done].
        by destruct (insert_article_ok _ _ _ _ _ Hok Hins).
    + rewrite filter_cons_False by done. by apply IH.
Qed.




End PipelineFacts.

(** ** Worked instances *)

Section Instances.
Import Samples.

Lemma sample_db_ok : Db.db_ok sample_db.
Proof.
  split; simpl.
  - apply NoDup_singleton.
  - apply NoDup_singleton.
  - apply Forall_singleton. lia.
  - lia.
Qed.


Lemma one_in_flight_reachable : Gate.reachable 1 5 one_in_flight.
Proof.
  apply (Gate.reach_step 1 5 (Gate.start 1 5)); [apply Gate.reach_start|].
  apply (Gate.step_acquire (Gate.start 1 5) 0); simpl; [done|lia].
Qed.

(** Two pages fetched and one missing: two successes, one failure, two rows
    under the two urls. *)
Example three_urls_one_missing :
  let '(r, db) :=
    Pipeline.crawl_and_store sample_parse sample_isoformat Db.empty
      [(lit "http://a.example/", page_ok); (lit "http://b.example/", page_missing);
       (lit "http://d.example/", page_ok)]
      (lit "quotes") 2 1%float healthy_engine in
  r = Returns {| Pipeline.total := 3; Pipeline.success := 2;
                 Pipeline.failed := 1; Pipeline.stored := 2 |}
  /\ map Db.url (Db.rows db) = [lit "http://a.example/"; lit "http://d.example/"].
Proof. by vm_compute. Qed.

(** The engine fails on the second of three records: three successes, two
    stored. *)
Example second_insert_fails :
  fst (Pipeline.crawl_and_store sample_parse sample_isoformat Db.empty
         [(lit "http://a.example/", page_ok); (lit "http://b.example/", page_ok);
          (lit "http://d.example/", page_ok)]
         (lit "quotes") 2 1%float sample_engine)
  = Returns {| Pipeline.total := 3; Pipeline.success := 3;
               Pipeline.failed := 0; Pipeline.stored := 2 |}.
Proof. by vm_compute. Qed.

(** One url in two invocations with different content: one row, with the
    content of the second. *)
Example same_url_twice :
  let run db body :=
    snd (Pipeline.crawl_and_store news_parse sample_isoformat db
           [(lit "http://a.example/", page_version body)]
           (lit "quotes") 2 1%float healthy_engine) in
  map (fun r => (Db.id r, Db.url r, Db.title r, Db.content r))
      (Db.rows (run (run Db.empty "v1") "v2"))
  = [(1, lit "http://a.example/", lit "News", Some (lit "second version"))].
Proof. by vm_compute. Qed.





Lemma article_to_record_truncation_witness :
  exists t c : pystr,
    Pipeline.article_to_record sample_isoformat sample_article (lit "quotes") !! "content"
      = Some (Db.PyStr c)
    /\ len c = 2000.
Proof.
  destruct (article_to_record_truncation sample_isoformat sample_article (lit "quotes"))
    as (t & c & Hc & Hlen & _).
  exists t, c. split; [exact Hc|exact Hlen].
Defined.

Lemma insert_article_frame_witness :
  exists r',
    Db.rows (snd (Db.insert_article sample_db
                    (Db.record (lit "New title") (lit "http://a.example/") (lit "new text")
                       (lit "other") (lit "2024-05-01T12:00:00")) sample_env)) !! 0%nat
      = Some r'
    /\ Db.id r' = 1
    /\ Db.created_at r' = lit "2024-04-30 08:00:00"
    /\ Db.source r' = Some (lit "quotes").
Proof.
  destruct (insert_article_frame sample_db
              (Db.record (lit "New title") (lit "http://a.example/") (lit "new text")
                 (lit "other") (lit "2024-05-01T12:00:00")) sample_env
              _ _ 0%nat sample_row (surjective_pairing _) eq_refl)
    as (r' & Hk & Hid & _ & Hcreated & Hsource & _).
  exists r'. split; [exact Hk|]. split; [exact Hid|]. split; [exact Hcreated|exact Hsource].
Defined.

Lemma at_most_K_in_flight_witness :
  Gate.reachable 1 5 one_in_flight /\ Gate.holding one_in_flight <= 1.
Proof.
  split; [exact one_in_flight_reachable|].
  apply (at_most_K_in_flight 1 5 one_in_flight); [lia|lia|exact one_in_flight_reachable].
Defined.

Lemma negative_concurrency_refused_witness :
  -1 < 0
  /\ Pipeline.crawl_and_store sample_parse sample_isoformat sample_db sample_tasks
       (lit "quotes") (-1) 1%float sample_engine = (Raises ValueError, sample_db).
Proof.
  split; [lia|].
  apply (negative_concurrency_refused sample_parse sample_isoformat sample_db sample_tasks
           (lit "quotes") (-1) 30 1%float sample_engine). lia.
Defined.

(** C8 fails at K = 0: the constructor returns a crawler, and the pipeline
    raises no error; with a batch to fetch it never returns. *)
Lemma zero_concurrency_accepted :
  Crawler.__init__ 0 1%float 30
  = Returns {| Crawler.semaphore := 0; Crawler.delay := 1%float; Crawler.timeout := 30;
               Crawler.session := false;
               Crawler.stats := {| Crawler.success := 0; Crawler.failed := 0;
                                   Crawler.total_time := 0%float |} |}
  /\ Pipeline.crawl_and_store sample_parse sample_isoformat sample_db sample_tasks
       (lit "quotes") 0 1%float sample_engine = (Blocks, sample_db)
  /\ is_raise (fst (Pipeline.crawl_and_store sample_parse sample_isoformat sample_db
                      sample_tasks (lit "quotes") 0 1%float sample_engine)) = false.
Proof. by vm_compute. Qed.

Lemma body_cut_before_extraction_witness :
  1 <= Crawler.semaphore sample_crawler
  /\ Crawler.session sample_crawler = true
  /\ len (Crawler.read_html (lit "<h1></h1>")) <= 1000000.
Proof.
  assert (1 <= Crawler.semaphore sample_crawler) as Hsem by (simpl; lia).
  split; [exact Hsem|]. split; [reflexivity|].
  apply (body_cut_before_extraction sample_parse sample_crawler
           (lit "http://a.example/") (lit "<h1></h1>") page_ok Hsem eq_refl eq_refl).
Defined.

(** C10 fails on the page [<h1></h1>]: selector [h1] selects the empty
    heading, a tag counts as found whatever it holds, and its text is the
    empty string; the outcome has status 200 and an empty title. *)
Lemma empty_title_extracted :
  Crawler._extract_title empty_heading_page = []
  /\ fst (Crawler.fetch_one sample_parse sample_crawler (lit "http://a.example/") page_ok)
     = Returns (Some empty_title_article)
  /\ Crawler.status empty_title_article = 200
  /\ len (Crawler.title empty_title_article) = 0.
Proof. by vm_compute. Qed.

Lemma extraction_bounds_witness :
  len (Crawler.title empty_title_article) <= 200
  /\ len (Crawler.content empty_title_article) <= 10000.
Proof.
  destruct (extraction_bounds sample_parse sample_crawler
              (snd (Crawler.fetch_one sample_parse sample_crawler
                      (lit "http://a.example/") page_ok))
              (lit "http://a.example/") page_ok empty_title_article
              ltac:(vm_compute; reflexivity) eq_refl) as (Ht & Hc & _).
  split; [exact Ht|exact Hc].
Defined.

End Instances.

(** * Further properties *)

(** ** The store: errors, atomicity, identifiers *)

Section StoreErrors.
Import Notions.
Import Db.



(** X2: a call that does not return an identifier, whether the statement
    failed, the engine failed or an exception left the method, leaves the
    table and the counter as they were. *)
Theorem insert_article_atomic
    (db : Database) (article : gmap string pyval) (env : db_env)
    (res : outcome (option Z)) (db' : Database) :
  insert_article db article env = (res, db') ->
  (forall i, res <> Returns (Some i)) ->
  db' = db.
Proof.
  unfold insert_article. intros H Hres.
  destruct (engine_event env); try (by injection H as _ <-);
    destruct (upsert db article (now env)) as [[i d]|]; injection H as <- <-; try done.
  by destruct (Hres i).
Qed.

(** X3: on a table that satisfies its constraints the table after a call
    satisfies them too, however the call ends; an identifier that is
    returned is positive and is the identifier of the one row that holds the
    inserted url afterwards. *)
Theorem insert_article_keeps_constraints
    (db : Database) (article : gmap string pyval) (env : db_env)
    (res : outcome (option Z)) (db' : Database) :
  db_ok db ->
  insert_article db article env = (res, db') ->
  db_ok db'
  /\ forall i, res = Returns (Some i) ->
       1 <= i
       /\ exists r, article !! "url" = Some (PyStr (url r))
            /\ filter (fun x => url x = url r) (rows db') = [r] /\ id r = i.
Proof.
  intros Hok Hins. destruct (insert_article_ok db article env res db' Hok Hins) as [Hok' Hpos].
  split; [done|]. intros i ->. split; [by apply Hpos|].
  assert (upsert db article (now env) = Some (i, db')) as Hup.
  { revert Hins. unfold insert_article.
    destruct (engine_event env); try done;
      destruct (upsert db article (now env)) as [[j d]|]; try done.
    by intros [= -> ->]. }
  apply upsert_inv in Hup
    as (t & u & c & s & f & _ & Hurl & _ & _ & _ & _ & [(r & Hfind & -> & Hrows)|(Hfind & -> & Hrows)]).
  - apply find_url_Some in Hfind as [Hin Hu].
    exists (set_row t (to_sql c) (to_sql f) r). simpl. rewrite Hu. split; [done|].
    split; [|done]. rewrite Hrows. apply update_url_filter; [apply Hok|done..].
  - apply find_url_None in Hfind.
    exists {| id := seq db'; title := t; url := u; content := to_sql c;
              source := to_sql s; category := None; fetched_at := to_sql f;
              created_at := now env |}.
    simpl. split; [done|]. split; [|done].
    rewrite Hrows, filter_app, filter_url_absent by done. simpl.
    by rewrite filter_cons_True, filter_nil.
Qed.

End StoreErrors.


(** ** The store: purging by age *)

Section Purge.
Import Db.

Variable is_old : Z -> Row -> bool.

Lemma filter_split_length {A} (P : A -> Prop) `{forall x, Decision (P x)} (l : list A) :
  (length (filter P l) + length (filter (fun x => ~ P x) l) = length l)%nat.
Proof.
  induction l as [|x l IH]; [done|].
  destruct (decide (P x)).
  - rewrite filter_cons_True, filter_cons_False by tauto. simpl. lia.
  - rewrite filter_cons_False, filter_cons_True by tauto. simpl. lia.
Qed.

Lemma NoDup_map_filter {A B} (f : A -> B) (P : A -> Prop) `{forall x, Decision (P x)}
    (l : list A) :
  NoDup (map f l) -> NoDup (map f (filter P l)).
Proof.
  induction l as [|x l IH]; [done|]. simpl. intros Hnd.
  apply NoDup_cons in Hnd as [Hx Hnd].
  destruct (decide (P x)).
  - rewrite filter_cons_True by done. simpl. apply NoDup_cons. split; [|by apply IH].
    intros Hin. apply Hx. apply list_elem_of_fmap in Hin as (y & -> & Hy).
    apply list_elem_of_fmap_2. by apply list_elem_of_filter in Hy as [_ ?].
  - rewrite filter_cons_False by done. by apply IH.
Qed.

Lemma Forall_map_filter {A B} (f : A -> B) (Q : B -> Prop) (P : A -> Prop)
    `{forall x, Decision (P x)} (l : list A) :
  Forall Q (map f l) -> Forall Q (map f (filter P l)).
Proof.
  rewrite !Forall_fmap. intros Hall. apply Forall_forall. intros x Hx.
  apply list_elem_of_filter in Hx as [_ Hx]. rewrite Forall_forall in Hall. by apply Hall.
Qed.

(** X4: with an engine that works, [delete_old_articles] returns the number
    of rows by which the table shrinks; the rows that stay are the rows the
    age test does not select, unchanged and in their order; the table keeps
    its constraints, and the counter for rowids is not set back.  When the
    engine fails the call raises and the table is as it was. *)
Theorem delete_old_articles_effect (db : Database) (days : Z) (env : db_env) :
  db_ok db ->
  let '(res, db') := Queries.delete_old_articles is_old db days env in
  db_ok db'
  /\ seq db' = seq db
  /\ (engine_event env = Healthy ->
      res = Returns (Z.of_nat (length (rows db)) - Z.of_nat (length (rows db')))
      /\ rows db' = filter (fun r => is_old days r <> true) (rows db)
      /\ (forall r, r ∈ rows db -> is_old days r = false -> r ∈ rows db'))
  /\ (engine_event env <> Healthy -> res = Raises SqliteError /\ db' = db).
Proof.
  intros Hok. unfold Queries.delete_old_articles.
  destruct (engine_event env) eqn:Hev; simpl;
    try (split; [done|split; [done|split; [intros [=]|done]]]).
  split; [|split; [done|split; [|done]]].
  - destruct Hok as [Hurls Hids Hpos Hseq]. split; simpl.
    + by apply NoDup_map_filter.
    + by apply NoDup_map_filter.
    + by apply Forall_map_filter.
    + done.
  - intros _. split; [|split; [done|]].
    + f_equal.
      pose proof (filter_split_length (fun r => is_old days r = true) (rows db)). lia.
    + intros r Hin Hr. apply list_elem_of_filter. split; [congruence|done].
Qed.

Lemma seq_covers_insert (db : Database) (article : gmap string pyval) (env : db_env)
    (res : outcome (option Z)) (db' : Database) :
  Queries.seq_covers db ->
  insert_article db article env = (res, db') ->
  Queries.seq_covers db' /\ seq db <= seq db'
  /\ forall i, res = Returns (Some i) -> i ∈ map id (rows db) \/ seq db < i.
Proof.
  unfold Queries.seq_covers. intros Hcov Hins.
  assert (db' = db /\ (forall i, res <> Returns (Some i))
          \/ exists i, res = Returns (Some i) /\ upsert db article (now env) = Some (i, db'))
    as [[-> Hres]|(i & -> & Hup)].
  { revert Hins. unfold insert_article.
    destruct (engine_event env); try (intros [= <- <-]; by left);
      destruct (upsert db article (now env)) as [[i d]|]; intros [= <- <-];
      (by left) || (right; by exists i). }
  { split; [done|]. split; [lia|]. intros i Hi. by destruct (Hres i). }
  apply upsert_inv in Hup
    as (t & u & c & s & f & _ & _ & _ & _ & _ & Hs & [(r & Hfind & -> & Hrows)|(Hfind & -> & Hrows)]).
  - apply find_url_Some in Hfind as [Hin _]. split; [|split; [lia|]].
    + rewrite Hrows, update_url_ids. eapply Forall_impl; [done|]. simpl. intros; lia.
    + intros i [= <-]. left. by apply list_elem_of_fmap_2.
  - split; [|split; [lia|]].
    + rewrite Hrows, map_app. apply Forall_app. split.
      * eapply Forall_impl; [done|]. simpl. intros; lia.
      * apply Forall_singleton. simpl. lia.
    + intros i [= <-]. right. lia.
Qed.

(** X5: the AUTOINCREMENT counter keeps identifiers from coming back.  On a
    table whose identifiers are behind the counter, purge and then insert:
    an identifier the insert returns is that of a row that survived the
    purge, or it is larger than the identifier of every row the table held
    before the purge, the purged ones included; and the identifiers are
    behind the counter again. *)
Theorem purged_ids_not_reused
    (db : Database) (days : Z) (env env' : db_env) (article : gmap string pyval)
    (i : Z) :
  Queries.seq_covers db ->
  let purged := snd (Queries.delete_old_articles is_old db days env) in
  fst (insert_article purged article env') = Returns (Some i) ->
  Queries.seq_covers (snd (insert_article purged article env'))
  /\ (i ∈ map id (rows purged) \/ forall r, r ∈ rows db -> id r < i).
Proof.
  intros Hcov purged Hres.
  assert (Queries.seq_covers purged /\ seq purged = seq db) as [Hcov' Hseq].
  { unfold purged, Queries.delete_old_articles, Queries.seq_covers.
    destruct (engine_event env); simpl; try done. split; [|done].
    by apply Forall_map_filter. }
  destruct (seq_covers_insert purged article env' _ _ Hcov' (surjective_pairing _))
    as (Hcov'' & _ & Hnew).
  split; [done|]. destruct (Hnew i Hres) as [Hin|Hlt]; [by left|right].
  intros r Hr. unfold Queries.seq_covers in Hcov. rewrite Forall_forall in Hcov.
  specialize (Hcov (id r) (list_elem_of_fmap_2 id _ _ Hr)). lia.
Qed.

End Purge.


(** ** The store: listing *)

Section Listing.
Import Notions.
Import Db.

Variable order : list Row -> list Row.
Hypothesis order_ok : Queries.orders_newest_first order.

Lemma limit_offset_sublist {A} (limit offset : Z) (l : list A) :
  Queries.limit_offset limit offset l `sublist_of` l.
Proof.
  unfold Queries.limit_offset. cbv zeta. destruct (limit <? 0).
  - apply sublist_drop.
  - etrans; [apply sublist_take|apply sublist_drop].
Qed.

Lemma limit_offset_length {A} (limit offset : Z) (l : list A) :
  0 <= limit -> Z.of_nat (length (Queries.limit_offset limit offset l)) <= limit.
Proof.
  intros Hl. unfold Queries.limit_offset. cbv zeta.
  destruct (Z.ltb_spec limit 0); [lia|]. rewrite length_take. lia.
Qed.

Lemma limit_offset_all {A} (limit offset : Z) (l : list A) :
  limit < 0 -> offset <= 0 -> Queries.limit_offset limit offset l = l.
Proof.
  intros Hl Ho. unfold Queries.limit_offset. cbv zeta.
  destruct (Z.ltb_spec limit 0); [|lia].
  by replace (Z.to_nat offset) with 0%nat by lia.
Qed.

Lemma StronglySorted_sublist {A} (R : relation A) (l1 l2 : list A) :
  l1 `sublist_of` l2 -> StronglySorted R l2 -> StronglySorted R l1.
Proof.
  induction 1 as [|x l1 l2 Hsub IH|x l1 l2 Hsub IH]; intros Hs; [done| |].
  - apply StronglySorted_cons in Hs as [Hall Hs]. apply StronglySorted_cons. split; [|by apply IH].
    apply Forall_forall. intros y Hy. rewrite Forall_forall in Hall.
    apply Hall. by eapply elem_of_sublist.
  - apply StronglySorted_cons in Hs as [_ Hs]. by apply IH.
Qed.

Lemma StronglySorted_lookup {A} (R : relation A) (l : list A) (i j : nat) (x y : A) :
  StronglySorted R l -> (i < j)%nat -> l !! i = Some x -> l !! j = Some y -> R x y.
Proof.
  intros Hs. revert i j. induction Hs as [|a l Hs IH Hall]; intros i j Hij Hi Hj; [done|].
  destruct j as [|j]; [lia|]. destruct i as [|i]; simpl in *.
  - injection Hi as ->. rewrite Forall_forall in Hall. apply Hall.
    by eapply list_elem_of_lookup_2.
  - apply (IH i j); [lia|done..].
Qed.

Lemma matching_sublist (db : Database) (source : option pystr) :
  matching db source `sublist_of` rows db.
Proof. unfold matching. destruct (Queries.wanted source); [apply sublist_filter|done]. Qed.

Lemma matching_source (db : Database) (source : option pystr) (r : Row) (s : pystr) :
  r ∈ matching db source -> Queries.wanted source = Some s -> Db.source r = Some s.
Proof.
  unfold matching. intros Hin Hw. rewrite Hw in Hin.
  by apply list_elem_of_filter in Hin as [? _].
Qed.

Lemma selected_spec (db : Database) (source : option pystr) (limit offset : Z) :
  Queries.selected order db source limit offset `sublist_of` order (matching db source)
  /\ order (matching db source) ≡ₚ matching db source
  /\ StronglySorted Queries.newer_first (Queries.selected order db source limit offset).
Proof.
  destruct (order_ok (matching db source)) as [Hperm Hsorted].
  assert (Queries.selected order db source limit offset
          `sublist_of` order (matching db source)) as Hsub.
  { unfold Queries.selected, matching. cbv zeta. apply limit_offset_sublist. }
  split; [done|]. split; [done|]. by eapply StronglySorted_sublist.
Qed.

Lemma selected_elem (db : Database) (source : option pystr) (limit offset : Z) (r : Row) :
  r ∈ Queries.selected order db source limit offset -> r ∈ matching db source.
Proof.
  destruct (selected_spec db source limit offset) as (Hsub & Hperm & _).
  intros Hin. rewrite <- Hperm. by eapply elem_of_sublist.
Qed.

Lemma selected_NoDup (db : Database) (source : option pystr) (limit offset : Z) :
  db_ok db -> NoDup (map id (Queries.selected order db source limit offset)).
Proof.
  intros Hok. destruct (selected_spec db source limit offset) as (Hsub & Hperm & _).
  apply (sublist_NoDup _ (map id (order (matching db source)))); [|by apply fmap_sublist].
  rewrite Hperm.
  apply (sublist_NoDup _ (map id (rows db))); [|apply fmap_sublist, matching_sublist].
  apply Hok.
Qed.

Lemma get_articles_records (db : Database) (source : option pystr) (limit offset : Z)
    (env : db_env) :
  fst (Queries.get_articles order db source limit offset env)
    `sublist_of` (Queries.of_row <$> Queries.selected order db source limit offset).
Proof.
  unfold Queries.get_articles.
  destruct (engine_event env), (Queries.int64 limit && Queries.int64 offset); simpl;
    try done; apply sublist_nil_l.
Qed.

(** X6: whatever the engine does, a listing yields at most [limit] records
    when [limit] is not negative; every record is a row of the table, and of
    the requested source when one is given; no row comes twice; a source that
    is the empty string filters nothing, like no source at all; and with an
    engine that works, no limit (a negative one, of 64 bits) and no offset,
    the listing holds every row that matches, once. *)
Theorem get_articles_selection
    (db : Database) (source : option pystr) (limit offset : Z) (env : db_env) :
  let records := fst (Queries.get_articles order db source limit offset env) in
  (0 <= limit -> Z.of_nat (length records) <= limit)
  /\ (forall rec, rec ∈ records ->
        exists r, r ∈ rows db /\ rec = Queries.of_row r
          /\ forall s, Queries.wanted source = Some s -> Db.source r = Some s)
  /\ (db_ok db -> NoDup (map Queries.id records))
  /\ Queries.get_articles order db (Some []) limit offset env
     = Queries.get_articles order db None limit offset env
  /\ (engine_event env = Healthy ->
      Queries.int64 limit = true -> Queries.int64 offset = true ->
      limit < 0 -> offset <= 0 ->
      records ≡ₚ Queries.of_row <$> matching db source).
Proof.
  cbv zeta. pose proof (get_articles_records db source limit offset env) as Hsub.
  split; [|split; [|split; [|split]]].
  - intros Hl. apply sublist_length in Hsub. rewrite length_fmap in Hsub.
    pose proof (limit_offset_length limit offset (order (matching db source)) Hl) as Hlen.
    unfold Queries.selected in Hsub. fold (matching db source) in Hsub. cbv zeta in Hsub. lia.
  - intros rec Hin. eapply elem_of_sublist in Hin; [|exact Hsub].
    apply list_elem_of_fmap in Hin as (r & -> & Hr). apply selected_elem in Hr.
    exists r. split; [exact (elem_of_sublist _ _ _ Hr (matching_sublist db source))|].
    split; [done|].
    intros s. by apply (matching_source db).
  - intros Hok.
    apply (sublist_NoDup _ (map Queries.id
             (Queries.of_row <$> Queries.selected order db source limit offset)));
      [|by apply fmap_sublist].
    pose proof (selected_NoDup db source limit offset Hok) as Hnd.
    apply (NoDup_fmap_2 Some) in Hnd. revert Hnd.
    by rewrite <- !list_fmap_compose.
  - done.
  - intros Hev Hlimit Hoffset Hl Ho.
    unfold Queries.get_articles. rewrite Hev, Hlimit, Hoffset. simpl.
    unfold Queries.selected. fold (matching db source). cbv zeta.
    rewrite limit_offset_all by done.
    destruct (order_ok (matching db source)) as [Hp _]. by apply fmap_Permutation.
Qed.

(** X7: the records of a listing come newest first: a record never has a
    creation time before that of a record behind it; and in a listing with
    no offset the first record is as new as any row that matches. *)
Theorem get_articles_newest_first
    (db : Database) (source : option pystr) (limit offset : Z) (env : db_env) :
  let records := fst (Queries.get_articles order db source limit offset env) in
  (forall i j ri rj, (i < j)%nat -> records !! i = Some ri -> records !! j = Some rj ->
     exists ci cj, Queries.created_at ri = Some ci /\ Queries.created_at rj = Some cj
       /\ Queries.str_le cj ci = true)
  /\ (offset <= 0 -> forall first r, records !! 0%nat = Some first -> r ∈ matching db source ->
        exists c, Queries.created_at first = Some c
          /\ Queries.str_le (created_at r) c = true).
Proof.
  cbv zeta. destruct (selected_spec db source limit offset) as (Hsub & Hperm & Hsorted).
  assert (fst (Queries.get_articles order db source limit offset env) = []
          \/ fst (Queries.get_articles order db source limit offset env)
             = Queries.of_row <$> Queries.selected order db source limit offset) as [->| ->].
  { unfold Queries.get_articles.
    destruct (engine_event env), (Queries.int64 limit && Queries.int64 offset); simpl;
      auto. }
  { split; [by intros|]. by intros. }
  split.
  - intros i j ri rj Hij Hi Hj.
    apply list_lookup_fmap_Some in Hi as (xi & -> & Hi).
    apply list_lookup_fmap_Some in Hj as (xj & -> & Hj).
    eexists _, _. split; [done|]. split; [done|].
    apply (StronglySorted_lookup _ _ i j xi xj Hsorted Hij Hi Hj).
  - intros Ho first r Hfirst Hr.
    apply list_lookup_fmap_Some in Hfirst as (x & -> & Hx).
    eexists. split; [done|]. simpl.
    destruct (order_ok (matching db source)) as [Hp Hs].
    assert (exists rest, order (matching db source) = x :: rest) as [rest Heq].
    { revert Hx. unfold Queries.selected. fold (matching db source). cbv zeta.
      unfold Queries.limit_offset. replace (Z.to_nat offset) with 0%nat by lia. simpl.
      destruct (limit <? 0).
      - destruct (order (matching db source)) as [|y rest]; [done|].
        intros [= ->]. by eexists.
      - destruct (order (matching db source)) as [|y rest]; [by destruct (Z.to_nat limit)|].
        destruct (Z.to_nat limit); [done|]. intros [= ->]. by eexists. }
    rewrite Heq in Hp, Hs. rewrite <- Hp in Hr.
    apply StronglySorted_cons in Hs as [Hall _].
    apply elem_of_cons in Hr as [->|Hr].
    + clear. unfold Queries.str_le. induction (created_at x) as [|c s IH]; [done|].
      fold Queries.str_le in *. by rewrite N.ltb_irrefl.
    + rewrite Forall_forall in Hall. by apply Hall.
Qed.

Lemma filter_of_row (u : pystr) (l : list Row) :
  filter (fun x => Queries.url x = u) (Queries.of_row <$> l)
  = Queries.of_row <$> filter (fun r => url r = u) l.
Proof.
  induction l as [|x l IH]; [done|]. rewrite fmap_cons.
  destruct (decide (url x = u)).
  - rewrite !filter_cons_True by done. by rewrite fmap_cons, IH.
  - by rewrite !filter_cons_False.
Qed.

(** X8: a record that was inserted is listed.  After an insert that
    returned an identifier, a listing without filter, limit and offset holds
    a record with that identifier and the inserted url, title and content,
    and no other record with the url. *)
Theorem insert_then_get_articles
    (db db' : Database) (t u c s f nw : pystr) (i : Z) (env : db_env) :
  db_ok db ->
  insert_article db (record t u c s f) {| engine_event := Healthy; now := nw |}
    = (Returns (Some i), db') ->
  engine_event env = Healthy ->
  exists rec,
    filter (fun x => Queries.url x = u)
      (fst (Queries.get_articles order db' None (-1) 0 env)) = [rec]
    /\ Queries.id rec = Some i /\ Queries.url rec = u
    /\ Queries.title rec = t /\ Queries.content rec = Some c.
Proof.
  intros Hok Hins Hev.
  destruct (insert_article_ok db _ _ _ _ Hok Hins) as [Hok' _].
  assert (exists r, filter (fun x => url x = u) (rows db') = [r] /\ id r = i
                    /\ url r = u /\ title r = t /\ content r = Some c) as (r & Hfil & Hr).
  { rewrite insert_article_record in Hins.
    destruct (find_url u (rows db)) as [r0|] eqn:Hfind.
    - apply find_url_Some in Hfind as [Hin Hu]. injection Hins as <- <-. simpl.
      exists (set_row t (Some c) (Some f) r0). split; [|by repeat split].
      apply update_url_filter; [apply Hok|done..].
    - apply find_url_None in Hfind. cbv zeta in Hins. injection Hins as <- <-. simpl.
      eexists. split.
      { rewrite filter_app, filter_url_absent by done. simpl.
        by rewrite filter_cons_True, filter_nil. }
      by repeat split. }
  assert (fst (Queries.get_articles order db' None (-1) 0 env)
          ≡ₚ Queries.of_row <$> rows db') as Hperm.
  { unfold Queries.get_articles. rewrite Hev.
    change (Queries.int64 (-1) && Queries.int64 0) with true. simpl.
    unfold Queries.selected. simpl.
    rewrite limit_offset_all by lia.
    destruct (order_ok (rows db')) as [Hp _]. by apply fmap_Permutation. }
  exists (Queries.of_row r).
  split; [|by destruct Hr as (<- & <- & <- & <-)].
  assert (filter (fun x => Queries.url x = u) (Queries.of_row <$> rows db')
          = [Queries.of_row r]) as Hfil'.
  { by rewrite filter_of_row, Hfil. }
  apply Permutation_singleton_r. rewrite <- Hfil'.
  by apply filter_Permutation.
Qed.

End Listing.


(** ** The store: search and statistics *)

Section Search.
Import Notions.
Import Db.

Lemma like_percent (p t : pystr) :
  Queries.like (Queries.percent :: p) t =
  Queries.like p t
  || match t with
     | [] => false
     | _ :: t' => Queries.like (Queries.percent :: p) t'
     end.
Proof. by destruct t. Qed.


(** [%] lets the rest of the pattern start anywhere in the text. *)
Lemma like_percent_iff (p t : pystr) :
  Queries.like (Queries.percent :: p) t = true <->
  exists t1 t2, t = t1 ++ t2 /\ Queries.like p t2 = true.
Proof.
  induction t as [|d t IH]; rewrite like_percent, orb_true_iff.
  - split.
    + intros [H|H]; [|done]. by exists [], [].
    + intros (t1 & t2 & Heq & H). left.
      symmetry in Heq. apply app_eq_nil in Heq as [-> ->]. done.
  - rewrite IH. split.
    + intros [H|(t1 & t2 & -> & H)]; [by exists [], (d :: t)|by exists (d :: t1), t2].
    + intros (t1 & t2 & Heq & H). destruct t1 as [|x t1]; simpl in Heq.
      * left. by rewrite Heq.
      * injection Heq as -> ->. right. by exists t1, t2.
Qed.


Lemma like_any (t : pystr) : Queries.like [Queries.percent] t = true.
Proof. apply like_percent_iff. exists t, []. by rewrite app_nil_r. Qed.





Variable order : list Row -> list Row.
Hypothesis order_ok : Queries.orders_newest_first order.


End Search.

Section Wildcards.
Import Db.

(** X10: a keyword is put into the pattern as it is.  Its [%] and [_] act
    as wildcards: the keyword [%] matches every row, and the keyword [_]
    matches exactly the rows whose title, or whose content, has a code
    point before any NUL.  A NUL ends the pattern: a keyword that begins
    with one matches every row. *)
Theorem keyword_wildcards (r : Row) :
  Queries.keyword_matches [Queries.percent] r = true
  /\ (Queries.keyword_matches [Queries.underscore] r = true <->
      Queries.upto_nul (title r) <> []
      \/ exists c, content r = Some c /\ Queries.upto_nul c <> [])
  /\ forall keyword, Queries.keyword_matches (0%N :: keyword) r = true.
Proof.
  assert (forall t, Queries.like [Queries.percent; Queries.percent; Queries.percent] t = true)
    as Hall.
  { intros t. apply like_percent_iff. exists [], t. split; [done|].
    apply like_percent_iff. exists [], t. split; [done|]. apply like_any. }
  assert (forall t, Queries.like [Queries.percent; Queries.underscore; Queries.percent] t = true
                    <-> t <> []) as Hone.
  { intros t. rewrite like_percent_iff. split.
    - intros (t1 & t2 & -> & H). destruct t2 as [|d t2]; [done|]. by destruct t1.
    - intros Ht. destruct t as [|d t]; [done|]. exists [], (d :: t). split; [done|].
      simpl. apply like_any. }
  unfold Queries.keyword_matches, Queries.sql_like, Queries.keyword_pattern. cbv zeta.
  split; [|split].
  - change (Queries.upto_nul (Queries.percent :: [Queries.percent] ++ [Queries.percent]))
      with [Queries.percent; Queries.percent; Queries.percent].
    by rewrite Hall.
  - change (Queries.upto_nul (Queries.percent :: [Queries.underscore] ++ [Queries.percent]))
      with [Queries.percent; Queries.underscore; Queries.percent].
    rewrite orb_true_iff, Hone. destruct (content r) as [c|].
    + rewrite Hone. split.
      * intros [H|H]; [by left|right; by exists c].
      * intros [H|(c' & [= <-] & H)]; [by left|by right].
    + split; [intros [H|H]; [by left|done]|intros [H|(c' & [=] & _)]; by left].
  - intros keyword.
    change (Queries.upto_nul (Queries.percent :: (0%N :: keyword) ++ [Queries.percent]))
      with [Queries.percent].
    by rewrite like_any.
Qed.

End Wildcards.

Section Statistics.
Import Db.

Lemma count_by_source_lookup (rws : list Row) (k : option pystr) :
  Queries.count_by_source rws !! k =
  let n := Z.of_nat (length (filter (fun r => source r = k) rws)) in
  if decide (n = 0) then None else Some n.
Proof.
  cbv zeta. induction rws as [|r rws IH]; [done|]. simpl.
  destruct (decide (source r = k)) as [Hk|Hk].
  - rewrite filter_cons_True by done. rewrite Hk, lookup_insert_eq, IH. simpl length.
    destruct (decide (Z.of_nat (S (length (filter (fun r0 => source r0 = k) rws))) = 0));
      [lia|].
    f_equal.
    destruct (decide (Z.of_nat (length (filter (fun r0 => source r0 = k) rws)) = 0));
      simpl; lia.
  - rewrite filter_cons_False by done. by rewrite lookup_insert_ne.
Qed.

Lemma sum_counts_insert (m : gmap (option pystr) Z) (k : option pystr) (v : Z) :
  Queries.sum_counts (<[k := v]> m) = Queries.sum_counts m - default 0 (m !! k) + v.
Proof.
  unfold Queries.sum_counts.
  assert (forall (m' : gmap (option pystr) Z) x, m' !! k = None ->
            map_fold (fun _ n acc => n + acc) 0 (<[k := x]> m')
            = x + map_fold (fun _ n acc => n + acc) 0 m') as Hins.
  { intros m' x Hnone. apply (map_fold_insert_L (fun _ n acc => n + acc)); [|done].
    intros. lia. }
  destruct (m !! k) as [v0|] eqn:Hk; simpl.
  - rewrite <- (insert_delete_eq m k v).
    rewrite <- (insert_delete_id m k v0 Hk) at 2.
    rewrite !Hins by apply lookup_delete_eq. lia.
  - rewrite Hins by done. lia.
Qed.

(** X11: with an engine that works, [get_stats] reports the number of rows
    as the total; the count it reports for a source is the number of rows of
    that source, and a source has an entry exactly when it has a row, rows
    without a source being counted under [None]; the counts add up to the
    total. *)
Theorem get_stats_counts (db : Database) (env : db_env) :
  engine_event env = Healthy ->
  exists st,
    Queries.get_stats db env = Returns st
    /\ Queries.total_articles st = Z.of_nat (length (rows db))
    /\ (forall k n, Queries.by_source st !! k = Some n <->
          n = Z.of_nat (length (filter (fun r => source r = k) (rows db))) /\ 0 < n)
    /\ (forall k, Queries.by_source st !! k = None <-> k ∉ map source (rows db))
    /\ Queries.sum_counts (Queries.by_source st) = Queries.total_articles st.
Proof.
  intros Hev. unfold Queries.get_stats, Queries.answered. rewrite Hev.
  eexists. split; [done|]. simpl. split; [done|]. split; [|split].
  - intros k n. rewrite count_by_source_lookup. cbv zeta.
    destruct (decide (Z.of_nat (length (filter (fun r => source r = k) (rows db))) = 0)).
    + split; [done|]. intros [-> ?]. lia.
    + split; [intros [= <-]; split; [done|lia]|by intros [-> _]].
  - intros k. rewrite count_by_source_lookup. cbv zeta.
    induction (rows db) as [|r rws IH]; simpl.
    + split; [intros _; apply not_elem_of_nil|done].
    + destruct (decide (source r = k)) as [Hk|Hk].
      * rewrite filter_cons_True by done. simpl length. rewrite decide_False by lia.
        split; [done|]. intros Hn. exfalso. apply Hn. rewrite Hk. apply list_elem_of_here.
      * rewrite filter_cons_False by done. rewrite IH, not_elem_of_cons.
        split; [by split|by intros [_ ?]].
  - induction (rows db) as [|r rws IH]; [done|]. simpl Queries.count_by_source.
    rewrite sum_counts_insert, IH. simpl length. lia.
Qed.

End Statistics.


(** ** The crawler's counters *)

Section Counters.
Import Crawler.

Variable parse : pystr -> node.

(** One fetch counts once: a success for an outcome with status 200, a
    failure for anything else. *)
Lemma fetch_one_counts (c c1 : AsyncCrawler) (u : pystr) (w : world) (r : option Article) :
  fetch_one parse c u w = (Returns r, c1) ->
  semaphore c1 = semaphore c /\ session c1 = session c
  /\ match delivered parse c (u, w) with
     | Some a => r = Some a
                 /\ success (stats c1) = success (stats c) + 1
                 /\ failed (stats c1) = failed (stats c)
     | None => success (stats c1) = success (stats c)
               /\ failed (stats c1) = failed (stats c) + 1
     end.
Proof.
  unfold delivered. simpl. unfold fetch_one, try_fetch.
  destruct (semaphore c <? 1); [done|].
  destruct (session c) eqn:Hses; simpl; [|intros [= <- <-]; simpl; by repeat split].
  destruct (net w) as [e|code b];
    [destruct e; intros [= <- <-]; simpl; by repeat split|].
  destruct (Z.eqb_spec code 200) as [->|Hcode]; simpl.
  - destruct b as [html|e]; [|destruct e; intros [= <- <-]; simpl; by repeat split].
    intros [= <- <-]. simpl. by repeat split.
  - intros [= <- <-]. simpl. destruct (Z.eqb_spec code 200); [done|]. by repeat split.
Qed.

Lemma run_tasks_counts (c0 : AsyncCrawler) (tasks : list (pystr * world)) :
  1 <= semaphore c0 ->
  forall c rs c',
    semaphore c = semaphore c0 -> session c = session c0 ->
    run_tasks parse c tasks = (rs, c') ->
    success (stats c') = success (stats c) + Z.of_nat (length (omap (delivered parse c0) tasks))
    /\ failed (stats c') + Z.of_nat (length (omap (delivered parse c0) tasks))
       = failed (stats c) + Z.of_nat (length tasks).
Proof.
  intros Hsem. induction tasks as [|[u w] tasks IH]; intros c rs c' Hc1 Hc2; simpl.
  - intros [= <- <-]. lia.
  - destruct (fetch_one_returns parse c u w) as (r & c1 & Heq & Hs1 & Hs2); [lia|].
    rewrite Heq. destruct (run_tasks parse c1 tasks) as [rs1 c2] eqn:Hrun.
    intros [= <- <-].
    destruct (IH c1 rs1 c2) as [IHs IHf]; [congruence..|done|].
    destruct (fetch_one_counts c c1 u w r Heq) as (_ & _ & Hcount).
    assert (delivered parse c0 (u, w) = delivered parse c (u, w)) as Hd.
    { unfold delivered. simpl. by rewrite (fetch_one_result parse c0 c u w). }
    rewrite Hd.
    destruct (delivered parse c (u, w)) as [a|]; simpl;
      change (list_omap _ _ (delivered parse c0) tasks)
        with (omap (delivered parse c0) tasks); lia.
Qed.

(** X12: after a batch on a semaphore with a permit, the crawler's counters
    have grown by one per task in all: [success] by the number of outcomes
    the batch returned, [failed] by the number of the other tasks. *)
Theorem fetch_many_counters
    (c c' : AsyncCrawler) (tasks : list (pystr * world)) (articles : list Article) :
  1 <= semaphore c ->
  fetch_many parse c tasks = (Returns articles, c') ->
  success (stats c') = success (stats c) + Z.of_nat (length articles)
  /\ failed (stats c') = failed (stats c) + Z.of_nat (length tasks) - Z.of_nat (length articles)
  /\ (length articles <= length tasks)%nat.
Proof.
  intros Hsem Hfm.
  destruct (fetch_many_delivered parse c c tasks) as (c1 & Heq & _); [done..|].
  rewrite Hfm in Heq. injection Heq as -> <-.
  revert Hfm. unfold fetch_many.
  destruct (run_tasks parse c tasks) as [rs c2] eqn:Hrun. intros [= _ <-].
  destruct (run_tasks_counts c tasks Hsem c rs c2) as [Hs Hf]; [done..|].
  split; [done|]. split; [lia|].
  clear. induction tasks as [|t tasks IH]; simpl; [done|].
  change (list_omap _ _ (delivered parse c) tasks) with (omap (delivered parse c) tasks).
  destruct (delivered parse c t); simpl; lia.
Qed.


End Counters.

(** ** Extraction *)

Section Extraction.
Import Crawler.

Lemma lstrip_head (s : pystr) (c : codepoint) (r : pystr) :
  lstrip s = c :: r -> isspace c = false.
Proof.
  induction s as [|x s IH]; simpl; [done|].
  destruct (isspace x) eqn:Hx; [done|]. by intros [= <- _].
Qed.

Lemma lstrip_suffix (s : pystr) : exists ws, s = ws ++ lstrip s.
Proof.
  induction s as [|x s [ws IH]]; simpl; [by exists []|].
  destruct (isspace x); [|by exists []].
  exists (x :: ws). simpl. by rewrite <- IH.
Qed.

(** What [strip] returns begins and ends with a code point that is not
    white space. *)
Lemma strip_ends (s : pystr) :
  (forall c r, strip s = c :: r -> isspace c = false)
  /\ (forall c r, strip s = r ++ [c] -> isspace c = false).
Proof.
  unfold strip. split.
  - intros c r Heq.
    destruct (lstrip_suffix (reverse (lstrip s))) as [ws Hws].
    apply (f_equal reverse) in Hws. rewrite reverse_involutive, reverse_app, Heq in Hws.
    by apply (lstrip_head s c (r ++ reverse ws)).
  - intros c r Heq. apply (f_equal reverse) in Heq.
    rewrite reverse_involutive, reverse_app in Heq. simpl in Heq.
    by apply (lstrip_head _ _ _ Heq).
Qed.

Lemma join_head (sep : pystr) (parts : list pystr) (c : codepoint) (r : pystr) :
  Forall (fun p => nonempty p = true) parts ->
  join sep parts = c :: r ->
  exists p ps, parts = (c :: p) :: ps.
Proof.
  intros Hall Heq. destruct parts as [|p ps]; [done|].
  apply Forall_cons in Hall as [Hp _]. destruct p as [|x p]; [done|].
  exists p, ps. destruct ps; simpl in Heq; by injection Heq as ->.
Qed.

Lemma slice_to_head (n : Z) (s : pystr) (c : codepoint) (r : pystr) :
  0 <= n -> slice_to n s = c :: r -> exists r', s = c :: r'.
Proof.
  intros Hn. unfold slice_to. destruct (Z.ltb_spec n 0); [lia|].
  destruct s as [|x s]; [by rewrite take_nil|].
  destruct (Z.to_nat n); simpl; [done|]. intros [= -> _]. by eexists.
Qed.

(** Text taken with [strip=True] never begins with white space. *)
Lemma get_text_strip_head (sep : pystr) (n : node) (c : codepoint) (r : pystr) :
  get_text sep true n = c :: r -> isspace c = false.
Proof.
  unfold get_text. intros Heq.
  apply join_head in Heq as (p & ps & Heq).
  - assert ((c :: p) ∈ filter (fun s => nonempty s = true) (map strip (all_strings n)))
      as Hin by (rewrite Heq; apply list_elem_of_here).
    apply list_elem_of_filter in Hin as [_ Hin].
    apply list_elem_of_fmap in Hin as (s & Hs & _).
    symmetry in Hs. by apply (proj1 (strip_ends s) c p).
  - apply Forall_forall. intros x Hx. by apply list_elem_of_filter in Hx as [? _].
Qed.

(** X14: neither the title nor the content that extraction returns begins
    with white space: every string of the page is stripped and the empty
    ones are dropped before they are joined, and the fallback title begins
    with a letter. *)
Theorem extracted_text_no_leading_space (soup : node) (c : codepoint) (r : pystr) :
  (_extract_title soup = c :: r -> isspace c = false)
  /\ (_extract_content soup = c :: r -> isspace c = false).
Proof.
  split.
  - unfold _extract_title. destruct (first_selected soup title_selectors) as [tag|].
    + intros Heq. apply slice_to_head in Heq as [r' Heq]; [|lia].
      by apply get_text_strip_head in Heq.
    + by intros [= <- _].
  - unfold _extract_content. cbv zeta.
    destruct (first_selected _ content_selectors) as [tag|].
    + intros Heq. apply slice_to_head in Heq as [r' Heq]; [|lia].
      by apply get_text_strip_head in Heq.
    + destruct (find_all ["p"] _) as [|p ps];
        intros Heq; apply slice_to_head in Heq as [r' Heq]; try lia;
        by apply get_text_strip_head in Heq.
Qed.

Lemma filter_nil_impl {A} (P Q : A -> Prop) `{forall x, Decision (P x)}
    `{forall x, Decision (Q x)} (l : list A) :
  (forall x, P x -> Q x) -> filter Q l = [] -> filter P l = [].
Proof.
  intros Himpl. induction l as [|x l IH]; [done|].
  destruct (decide (Q x)) as [Hq|Hq].
  - by rewrite filter_cons_True.
  - rewrite filter_cons_False by done. intros Hnil.
    rewrite filter_cons_False by (intros Hp; by apply Hq, Himpl). by apply IH.
Qed.

(** X15: the last title selector, an [h1] inside [.article-header], never
    decides the title: whatever it selects is an [h1], which the fourth
    selector has found before.  The title is what the first five selectors
    give. *)
Theorem last_title_selector_unused (soup : node) :
  first_selected soup title_selectors = first_selected soup (take 5 title_selectors)
  /\ (select_one soup (by_name "h1") = None ->
      select_one soup (inside (by_class "article-header") (by_name "h1")) = None).
Proof.
  assert (select_one soup (by_name "h1") = None ->
          select_one soup (inside (by_class "article-header") (by_name "h1")) = None) as Hdead.
  { unfold select_one. intros Hnone.
    destruct (filter _ (descendants soup)) as [|x l] eqn:Hfil in Hnone; [|done].
    assert (filter (fun p => matches (inside (by_class "article-header") (by_name "h1"))
                               (fst p) (snd p) = true) (descendants soup) = []) as ->;
      [|done].
    eapply filter_nil_impl; [|exact Hfil].
    intros [anc n]. unfold matches. simpl. intros Hm.
    apply andb_true_iff in Hm as [-> _]. done. }
  split; [|done]. simpl.
  repeat (match goal with
          | |- context [select_one soup ?sel] =>
              lazymatch sel with
              | inside _ _ => fail
              | _ => destruct (select_one soup sel) eqn:?; [done|]
              end
          end).
  by rewrite Hdead.
Qed.

(** Induction over a tree and its children. *)
Lemma node_induction (P : node -> Prop) :
  (forall s, P (NText s)) ->
  (forall name classes attrs kids, Forall P kids -> P (NElem name classes attrs kids)) ->
  forall n, P n.
Proof.
  intros Htext Helem. fix IH 1. intros [s|name classes attrs kids]; [apply Htext|].
  apply Helem. induction kids as [|k kids IHkids]; constructor; [apply IH|apply IHkids].
Qed.

Lemma decompose_all_name (names : list string) (n : node) :
  has_name names (decompose_all names n) = has_name names n.
Proof. by destruct n. Qed.

Lemma decompose_all_clean (names : list string) (n : node) :
  forall anc, has_name names n = false ->
  Forall (fun p => has_name names (snd p) = false) (tags_from anc (decompose_all names n)).
Proof.
  induction n as [s|name classes attrs kids IH] using node_induction; intros anc Hn; [done|].
  simpl. apply Forall_cons. split; [done|].
  match goal with |- context [NElem name classes attrs ?ks :: anc] => generalize (NElem name classes attrs ks :: anc) end.
  intros anc'. clear Hn. induction IH as [|k kids Hk _ IHkids]; simpl; [done|].
  destruct (has_name names k) eqn:Hname; [done|].
  simpl. apply Forall_app. split; [by apply Hk|done].
Qed.

(** X16: once the tags of the given names are decomposed none is left:
    below the root of the tree no tag at any depth has one of the names, so
    [find_all] for them finds nothing and no selector selects such a tag.
    With the names of the code, the content is never taken from a
    [script], [style], [nav], [header], [footer] or [aside] tag. *)
Theorem noise_is_gone (names : list string) (soup : node) :
  Forall (fun p => has_name names (snd p) = false)
    (descendants (decompose_all names soup))
  /\ find_all names (decompose_all names soup) = []
  /\ forall sel tag,
       select_one (decompose_all names soup) sel = Some tag -> has_name names tag = false.
Proof.
  assert (Forall (fun p => has_name names (snd p) = false)
            (descendants (decompose_all names soup))) as Hclean.
  { destruct soup as [s|name classes attrs kids]; [done|]. simpl.
    match goal with
    | |- context [tags_from ?anc] => generalize anc
    end.
    intros anc. induction kids as [|k kids IH]; simpl; [done|].
    destruct (has_name names k) eqn:Hname; [done|].
    simpl. apply Forall_app. split; [by apply decompose_all_clean|done]. }
  split; [done|]. split.
  - unfold find_all. rewrite Forall_forall in Hclean.
    assert (filter (fun p => has_name names (snd p) = true)
              (descendants (decompose_all names soup)) = []) as ->; [|done].
    induction (descendants (decompose_all names soup)) as [|p l IH]; [done|].
    rewrite filter_cons_False.
    + apply IH. intros x Hx. apply Hclean. by apply list_elem_of_further.
    + rewrite (Hclean p) by apply list_elem_of_here. done.
  - intros sel tag. unfold select_one. intros Hsel.
    destruct (filter _ (descendants (decompose_all names soup))) as [|p l] eqn:Hfil;
      [done|].
    injection Hsel as <-.
    assert (p ∈ filter (fun p => matches sel (fst p) (snd p) = true)
                  (descendants (decompose_all names soup))) as Hin
      by (rewrite Hfil; apply list_elem_of_here).
    apply list_elem_of_filter in Hin as [_ Hin].
    rewrite Forall_forall in Hclean. by apply Hclean.
Qed.

Lemma max_by_spec {A} (key : A -> Z) (x : A) (rest : list A) :
  max_by key x rest ∈ x :: rest
  /\ forall y, y ∈ x :: rest -> key y <= key (max_by key x rest).
Proof.
  revert x. induction rest as [|z rest IH]; intros x; simpl.
  - split; [apply list_elem_of_here|]. intros y Hy.
    apply list_elem_of_singleton in Hy as ->. lia.
  - destruct (IH (if key x <? key z then z else x)) as [Hin Hmax]. split.
    + apply elem_of_cons in Hin as [Heq|Hin].
      * rewrite Heq. destruct (key x <? key z);
          [apply list_elem_of_further, list_elem_of_here|apply list_elem_of_here].
      * by apply list_elem_of_further, list_elem_of_further.
    + intros y Hy.
      pose proof (Hmax _ (list_elem_of_here _ _)) as Hfirst.
      apply elem_of_cons in Hy as [->|Hy].
      * destruct (Z.ltb_spec (key x) (key z)); lia.
      * apply elem_of_cons in Hy as [->|Hy].
        -- destruct (Z.ltb_spec (key x) (key z)); lia.
        -- apply Hmax. by apply list_elem_of_further.
Qed.

(** X17: when no content container is selected and the page has
    paragraphs, the content is the stripped text of one of them, cut to
    10000, and no paragraph has a longer text than that one. *)
Theorem content_from_longest_paragraph (soup : node) (p : node) (ps : list node) :
  first_selected (decompose_all noise_names soup) content_selectors = None ->
  find_all ["p"] (decompose_all noise_names soup) = p :: ps ->
  exists longest,
    longest ∈ p :: ps
    /\ _extract_content soup = slice_to 10000 (get_text [] true longest)
    /\ forall q, q ∈ p :: ps -> len (get_text [] false q) <= len (get_text [] false longest).
Proof.
  intros Hnone Hps. unfold _extract_content. cbv zeta. rewrite Hnone, Hps.
  destruct (max_by_spec (fun q => len (get_text [] false q)) p ps) as [Hin Hmax].
  eexists. split; [exact Hin|]. split; [done|]. exact Hmax.
Qed.

End Extraction.


(** ** The gate: every batch ends *)

Section GateRuns.
Import Gate.






Lemma run_reachable (K : Z) (N n : nat) (s s' : state) :
  reachable K N s -> Runs.run n s s' -> reachable K N s'.
Proof.
  intros Hreach Hrun. induction Hrun as [s|n s s1 s2 Hstep _ IH]; [done|].
  apply IH. by eapply reach_step.
Qed.



End GateRuns.


(** ** The coordinator and the table *)

Section PipelineTable.
Import Pipeline.

Variable parse : pystr -> node.
Variable isoformat : float -> pystr.

(** An insert leaves the urls and identifiers of the table in place and
    adds at most the url it was given. *)
Lemma insert_article_grows (db : Db.Database) (article : gmap string Db.pyval)
    (env : Db.db_env) (res : outcome (option Z)) (db' : Db.Database) :
  Db.insert_article db article env = (res, db') ->
  exists added_urls added_ids,
    map Db.url (Db.rows db') = map Db.url (Db.rows db) ++ added_urls
    /\ map Db.id (Db.rows db') = map Db.id (Db.rows db) ++ added_ids
    /\ Forall (fun u => article !! "url" = Some (Db.PyStr u)) added_urls
    /\ forall i, res = Returns (Some i) ->
         exists u, article !! "url" = Some (Db.PyStr u) /\ u ∈ map Db.url (Db.rows db').
Proof.
  intros Hins.
  assert (db' = db /\ (forall i, res <> Returns (Some i))
          \/ exists i, res = Returns (Some i)
               /\ Db.upsert db article (Db.now env) = Some (i, db'))
    as [[-> Hres]|(i & -> & Hup)].
  { revert Hins. unfold Db.insert_article.
    destruct (Db.engine_event env); try (intros [= <- <-]; by left);
      destruct (Db.upsert db article (Db.now env)) as [[i d]|]; intros [= <- <-];
      (by left) || (right; by exists i). }
  { exists [], []. rewrite !app_nil_r. repeat split; [done|]. intros i Hi. by destruct (Hres i). }
  apply upsert_inv in Hup
    as (t & u & c & s & f & _ & Hurl & _ & _ & _ & _ & [(r & Hfind & -> & Hrows)|(Hfind & -> & Hrows)]).
  - exists [], []. rewrite !app_nil_r, Hrows, update_url_urls, update_url_ids.
    repeat split; [done|]. intros i _. exists u. split; [done|].
    apply find_url_Some in Hfind as [Hin <-]. by apply list_elem_of_fmap_2.
  - exists [u], [Db.seq db']. rewrite Hrows, !map_app. simpl. repeat split.
    + by apply Forall_singleton.
    + intros i _. exists u. split; [done|]. apply elem_of_app. right. apply list_elem_of_here.
Qed.

Lemma article_to_record_url (a : Crawler.Article) (source : pystr) :
  article_to_record isoformat a source !! "url" = Some (Db.PyStr (Crawler.url a)).
Proof. unfold article_to_record. by simplify_map_eq. Qed.

(** The storing loop leaves the urls and identifiers of the table in place
    and adds only urls of the outcomes it was given. *)
Lemma store_articles_grows (source : pystr) (engine : nat -> Db.db_env)
    (articles : list Crawler.Article) :
  forall (call : nat) (db : Db.Database) (n0 : Z)
         (r : outcome (Z * list (option Z))) (db' : Db.Database),
    store_articles isoformat source articles engine call db n0 = (r, db') ->
    exists added_urls added_ids,
      map Db.url (Db.rows db') = map Db.url (Db.rows db) ++ added_urls
      /\ map Db.id (Db.rows db') = map Db.id (Db.rows db) ++ added_ids
      /\ Forall (fun u => u ∈ map Crawler.url articles) added_urls.
Proof.
  induction articles as [|a articles IH]; intros call db n0 r db'; simpl.
  - intros [= <- <-]. exists [], []. by rewrite !app_nil_r.
  - assert (forall l : list pystr,
              Forall (fun u => u ∈ map Crawler.url articles) l ->
              Forall (fun u => u ∈ Crawler.url a :: map Crawler.url articles) l) as Hweak.
    { intros l Hl. eapply Forall_impl; [exact Hl|]. simpl. intros u Hu.
      by apply list_elem_of_further. }
    destruct (Crawler.status a =? 200).
    + destruct (Db.insert_article db (article_to_record isoformat a source) (engine call))
        as [[aid| |] d] eqn:Hins;
        destruct (insert_article_grows _ _ _ _ _ Hins) as (au & ai & Hu & Hi & Hall & _);
        assert (Forall (fun u => u ∈ Crawler.url a :: map Crawler.url articles) au) as Hau
          by (eapply Forall_impl; [exact Hall|]; simpl; intros u Hurl;
              rewrite article_to_record_url in Hurl; injection Hurl as ->;
              apply list_elem_of_here).
      * destruct (store_articles isoformat source articles engine (S call) d
                    (if truthy aid then n0 + 1 else n0)) as [r1 d1] eqn:Hrest.
        intros [= <- <-].
        destruct (IH _ _ _ _ _ Hrest) as (au' & ai' & Hu' & Hi' & Hall').
        exists (au ++ au'), (ai ++ ai'). rewrite Hu', Hi', Hu, Hi, <- !app_assoc.
        repeat split. apply Forall_app. split; [done|by apply Hweak].
      * intros [= <- <-]. by exists au, ai.
      * intros [= <- <-]. by exists au, ai.
    + intros Hrest. destruct (IH _ _ _ _ _ Hrest) as (au' & ai' & Hu' & Hi' & Hall').
      exists au', ai'. repeat split; [done..|]. by apply Hweak.
Qed.

Lemma delivered_url (c : Crawler.AsyncCrawler) (u : pystr) (w : Crawler.world)
    (a : Crawler.Article) :
  Crawler.delivered parse c (u, w) = Some a -> Crawler.url a = u /\ Crawler.status a = 200.
Proof.
  unfold Crawler.delivered, Crawler.fetch_one, Crawler.try_fetch. simpl.
  destruct (Crawler.semaphore c <? 1); [done|].
  destruct (Crawler.session c); simpl; [|done].
  destruct (Crawler.net w) as [e|code b]; [by destruct e|].
  destruct (Z.eqb_spec code 200) as [->|Hcode]; simpl.
  - destruct b as [html|e]; [|by destruct e]. simpl. by intros [= <-].
  - by destruct (Z.eqb_spec code 200).
Qed.

(** What a batch returns are outcomes of its tasks. *)
Lemma fetch_many_urls (c c' : Crawler.AsyncCrawler) (tasks : list (pystr * Crawler.world))
    (articles : list Crawler.Article) :
  Crawler.fetch_many parse c tasks = (Returns articles, c') ->
  Forall (fun a => Crawler.url a ∈ map fst tasks) articles.
Proof.
  intros Hfm. destruct (Z.ltb_spec (Crawler.semaphore c) 1) as [Hlt|Hge].
  - destruct tasks as [|t tasks].
    + revert Hfm. unfold Crawler.fetch_many. simpl. by intros [= <- <-].
    + by rewrite fetch_many_blocks in Hfm.
  - destruct (fetch_many_delivered parse c c tasks) as (c1 & Heq & _); [done..|].
    rewrite Hfm in Heq. injection Heq as -> <-.
    apply Forall_forall. intros a Ha. apply list_elem_of_omap in Ha as ([u w] & Hin & Hd).
    apply delivered_url in Hd as [Hurl _]. rewrite Hurl.
    by apply (list_elem_of_fmap_2 fst _ (u, w)).
Qed.

(** The table through an invocation. *)
Lemma crawl_and_store_table
    (db : Db.Database) (tasks : list (pystr * Crawler.world)) (source : pystr)
    (K : Z) (delay : float) (engine : nat -> Db.db_env)
    (res : outcome PipelineStats) (db' : Db.Database) :
  Db.db_ok db ->
  crawl_and_store parse isoformat db tasks source K delay engine = (res, db') ->
  Db.db_ok db'
  /\ exists added_urls added_ids,
       map Db.url (Db.rows db') = map Db.url (Db.rows db) ++ added_urls
       /\ map Db.id (Db.rows db') = map Db.id (Db.rows db) ++ added_ids
       /\ Forall (fun u => u ∈ map fst tasks) added_urls.
Proof.
  intros Hok. unfold crawl_and_store.
  assert (Db.db_ok db /\ exists au ai : list _,
            map Db.url (Db.rows db) = map Db.url (Db.rows db) ++ au
            /\ map Db.id (Db.rows db) = map Db.id (Db.rows db) ++ ai
            /\ Forall (fun u => u ∈ map fst tasks) au) as Hsame.
  { split; [done|]. exists [], []. by rewrite !app_nil_r. }
  destruct (Crawler.__init__ K delay 30) as [c| |]; try (by intros [= <- <-]).
  destruct (Crawler.fetch_many parse (Crawler.__aenter__ c) tasks)
    as [[articles| |] c1] eqn:Hfm; try (by intros [= <- <-]).
  pose proof (fetch_many_urls _ _ _ _ Hfm) as Hurls.
  destruct (store_articles isoformat source articles engine 0 db 0) as [r2 d] eqn:Hstore.
  intros [= <- <-].
  destruct (store_articles_spec _ _ _ _ _ _ _ _ _ Hok Hstore) as [Hok' _].
  split; [done|].
  destruct (store_articles_grows _ _ _ _ _ _ _ _ Hstore) as (au & ai & Hu & Hi & Hall).
  exists au, ai. split; [done|]. split; [done|].
  eapply Forall_impl; [exact Hall|]. simpl. intros u Hin.
  apply list_elem_of_fmap in Hin as (a & -> & Ha).
  rewrite Forall_forall in Hurls. by apply Hurls.
Qed.

(** X20: however an invocation ends, a table that satisfied its constraints
    still does; every row it held is still there, at its place, under its
    identifier and url; and the urls of the rows it gained are urls of the
    batch. *)
Theorem crawl_and_store_keeps_table
    (db : Db.Database) (tasks : list (pystr * Crawler.world)) (source : pystr)
    (K : Z) (delay : float) (engine : nat -> Db.db_env)
    (res : outcome PipelineStats) (db' : Db.Database) :
  Db.db_ok db ->
  crawl_and_store parse isoformat db tasks source K delay engine = (res, db') ->
  Db.db_ok db'
  /\ exists added_urls added_ids,
       map Db.url (Db.rows db') = map Db.url (Db.rows db) ++ added_urls
       /\ map Db.id (Db.rows db') = map Db.id (Db.rows db) ++ added_ids
       /\ Forall (fun u => u ∈ map fst tasks) added_urls.
Proof. apply crawl_and_store_table. Qed.

End PipelineTable.


Section PipelineHealthy.
Import Notions.
Import Pipeline.

Variable parse : pystr -> node.
Variable isoformat : float -> pystr.





End PipelineHealthy.


(** ** The commands *)

Section Commands.
Import Notions.

Variable parse : pystr -> node.
Variable isoformat : float -> pystr.






Lemma with_worlds_urls (worlds : nat -> Crawler.world) (urls : list pystr) :
  map fst (Cli.with_worlds worlds urls) = urls.
Proof.
  unfold Cli.with_worlds. revert worlds.
  induction urls as [|u urls IH]; intros worlds; [done|].
  simpl. f_equal. apply (IH (fun i => worlds (S i))).
Qed.



(** X23: [crawl_httpbin] fetches one url [count] times; however the
    fetches and the engine behave, a table that satisfies its constraints
    gains at most one row, and none when it already holds the url. *)
Theorem crawl_httpbin_one_row
    (db : Db.Database) (worlds : nat -> Crawler.world) (count : Z)
    (engine : nat -> Db.db_env) :
  Db.db_ok db ->
  let db' := snd (Cli.crawl_httpbin parse isoformat db worlds count engine) in
  (length (Db.rows db') <= length (Db.rows db) + 1)%nat
  /\ (length (Db.rows db) <= length (Db.rows db'))%nat
  /\ (lit "https://httpbin.org/html" ∈ map Db.url (Db.rows db) ->
      length (Db.rows db') = length (Db.rows db)).
Proof.
  intros Hok db'.
  destruct (crawl_and_store_table parse isoformat db
              (Cli.with_worlds worlds (Cli.httpbin_urls count)) (lit "httpbin") 1 0.5%float
              engine _ _ Hok (surjective_pairing _)) as (Hok' & au & ai & Hu & _ & Hall).
  fold (Cli.crawl_httpbin parse isoformat db worlds count engine) in Hok', Hu.
  fold db' in Hok', Hu.
  rewrite with_worlds_urls in Hall.
  assert (Forall (fun u => u = lit "https://httpbin.org/html") au) as Hsame.
  { eapply Forall_impl; [exact Hall|]. simpl. intros u Hin.
    unfold Cli.httpbin_urls in Hin. by apply elem_of_replicate in Hin as [? _]. }
  assert (NoDup (map Db.url (Db.rows db) ++ au)) as Hnd by (rewrite <- Hu; apply Hok').
  apply NoDup_app in Hnd as (_ & Hdisj & Hnd).
  assert (length (Db.rows db') = (length (Db.rows db) + length au)%nat) as Hlen.
  { by rewrite <- (length_map Db.url (Db.rows db')), Hu, length_app, length_map. }
  assert (length au <= 1)%nat as Hone.
  { destruct au as [|x [|y au]]; simpl; [lia..|]. exfalso.
    apply Forall_cons in Hsame as [-> Hsame]. apply Forall_cons in Hsame as [-> _].
    apply NoDup_cons in Hnd as [Hx _]. apply Hx, list_elem_of_here. }
  split; [lia|]. split; [lia|]. intros Hin.
  destruct au as [|x au]; [simpl in Hlen; lia|]. exfalso.
  apply Forall_cons in Hsame as [-> _]. by apply (Hdisj _ Hin), list_elem_of_here.
Qed.

End Commands.


(** ** The retry decorator *)

Section RetryFacts.
Import Notions.
Import Decorator.

Context {A : Type}.
Variable catches : exn -> bool.
Variable func : nat -> outcome A.
Variable sleep : outcome unit.

Lemma attempts_calls (m : Z) (left : nat) (attempt : Z) (calls : nat) :
  (calls <= snd (attempts catches func sleep m left attempt calls) <= calls + left)%nat.
Proof.
  revert attempt calls. induction left as [|left IH]; intros attempt calls; simpl; [lia|].
  destruct (func calls) as [a|e|]; simpl; try lia.
  destruct (catches e); simpl; [|lia].
  destruct (attempt =? m); simpl; [lia|].
  destruct sleep; simpl; [|lia..].
  specialize (IH (attempt + 1) (S calls)). lia.
Qed.

Lemma attempts_None (m : Z) (left : nat) (attempt : Z) (calls : nat) :
  Z.of_nat left + attempt = m + 1 -> (1 <= left)%nat ->
  fst (attempts catches func sleep m left attempt calls) <> Returns None.
Proof.
  revert attempt calls. induction left as [|left IH]; intros attempt calls Hinv Hleft; [lia|].
  simpl. destruct (func calls) as [a|e|]; simpl; try done.
  destruct (catches e); simpl; [|done].
  destruct (Z.eqb_spec attempt m) as [Hlast|Hmore]; simpl; [done|].
  destruct sleep; simpl; [|done..].
  apply IH; lia.
Qed.

(** X24: the wrapper calls the function at most [max_attempts] times.  With
    [max_attempts] of 1 or more it never falls through to [return None]: it
    returns what a call returned, or raises; with [max_attempts] of 0 or
    less it returns [None] without calling the function at all.  When
    [time.sleep] raises, as for a negative [delay], there is no second
    attempt: the wrapper raises that exception after the first failure it
    would have retried. *)
Theorem retry_attempts_bounded (max_attempts : Z) :
  (snd (retry catches func sleep max_attempts) <= Z.to_nat max_attempts)%nat
  /\ (fst (retry catches func sleep max_attempts) = Returns None <-> max_attempts <= 0)
  /\ (max_attempts <= 0 -> retry catches func sleep max_attempts = (Returns None, 0%nat))
  /\ (forall e e', 2 <= max_attempts -> func 0%nat = Raises e -> catches e = true ->
        sleep = Raises e' ->
        retry catches func sleep max_attempts = (Raises e', 1%nat)).
Proof.
  unfold retry.
  pose proof (attempts_calls max_attempts (Z.to_nat max_attempts) 1 0) as Hcalls.
  split; [lia|].
  assert (max_attempts <= 0 ->
          attempts catches func sleep max_attempts (Z.to_nat max_attempts) 1 0
          = (Returns None, 0%nat)) as Hzero.
  { intros Hm. by replace (Z.to_nat max_attempts) with 0%nat by lia. }
  split; [|split; [done|]].
  - split.
    + intros Hnone. destruct (Z.le_gt_cases max_attempts 0) as [|Hpos]; [done|].
      exfalso. revert Hnone. apply attempts_None; lia.
    + intros Hm. by rewrite Hzero.
  - intros e e' Hm Hfirst Hcaught Hsleep.
    destruct (Z.to_nat max_attempts) as [|left] eqn:Hleft; [lia|].
    cbn [attempts]. rewrite Hfirst, Hcaught, Hsleep.
    destruct (Z.eqb_spec 1 max_attempts); [lia|done].
Qed.

Lemma attempts_skip (m : Z) (k : nat) :
  sleep = Returns tt ->
  forall (left : nat) (attempt : Z) (calls : nat),
    Z.of_nat left + attempt = m + 1 -> (k < left)%nat ->
    (forall j, (j < k)%nat -> fails_caught catches func (calls + j)) ->
    attempts catches func sleep m left attempt calls
    = attempts catches func sleep m (left - k) (attempt + Z.of_nat k) (calls + k).
Proof.
  intros Hsleep. induction k as [|k IH]; intros left attempt calls Hinv Hk Hfail.
  - f_equal; lia.
  - destruct left as [|left]; [lia|]. simpl.
    destruct (Hfail 0%nat) as (e & He & Hc); [lia|].
    rewrite Nat.add_0_r in He. rewrite He, Hc, Hsleep.
    destruct (Z.eqb_spec attempt m); [lia|]. rewrite <- Hsleep.
    rewrite IH; [f_equal; lia|lia|lia|].
    intros j Hj. replace (S calls + j)%nat with (calls + S j)%nat by lia. apply Hfail. lia.
Qed.

(** X25: with a [time.sleep] that returns, the wrapper goes on as long as
    calls fail with an exception it catches, and is decided by the first
    call that does otherwise, if there is one among the first
    [max_attempts]: a value is returned, an exception it does not catch is
    raised at once, and the exception of the last attempt is raised even
    though it is caught.  The calls made are those up to the deciding
    one. *)
Theorem retry_decided_by (max_attempts : Z) (k : nat) :
  sleep = Returns tt ->
  (k < Z.to_nat max_attempts)%nat ->
  (forall j, (j < k)%nat -> fails_caught catches func j) ->
  match func k with
  | Returns result => retry catches func sleep max_attempts = (Returns (Some result), S k)
  | Raises e =>
      catches e = false \/ S k = Z.to_nat max_attempts ->
      retry catches func sleep max_attempts = (Raises e, S k)
  | Blocks => retry catches func sleep max_attempts = (Blocks, S k)
  end.
Proof.
  intros Hsleep Hk Hfail. unfold retry.
  rewrite (attempts_skip max_attempts k Hsleep) by (lia || done). simpl.
  destruct (Z.to_nat max_attempts - k)%nat as [|left] eqn:Hleft; [lia|]. simpl.
  destruct (func k) as [a|e|]; [done| |done].
  intros [Hc|Hlast]; [by rewrite Hc|].
  destruct (catches e); [|done].
  destruct (Z.eqb_spec (1 + Z.of_nat k) max_attempts); [done|lia].
Qed.

End RetryFacts.


(** ** The table of sources *)

Section SourcesTable.

Lemma str_le_total (a b : pystr) :
  Queries.str_le a b = true \/ Queries.str_le b a = true.
Proof.
  revert b. induction a as [|x a IH]; intros [|y b]; simpl; try (by left); try (by right).
  destruct (N.ltb_spec x y), (N.ltb_spec y x); try (by left); try (by right). apply IH.
Qed.

Lemma str_le_trans (a b c : pystr) :
  Queries.str_le a b = true -> Queries.str_le b c = true -> Queries.str_le a c = true.
Proof.
  revert b c. induction a as [|x a IH]; intros [|y b] [|z c]; simpl; try done.
  destruct (N.ltb_spec x y), (N.ltb_spec y x), (N.ltb_spec y z), (N.ltb_spec z y),
    (N.ltb_spec x z), (N.ltb_spec z x); try done; try lia.
  apply IH.
Qed.

Lemma item_le_total : Total Views.item_le.
Proof.
  intros [[x|] n] [[y|] m]; unfold Views.item_le; simpl; try (by left); try (by right).
  apply str_le_total.
Qed.

Lemma item_le_trans : Transitive Views.item_le.
Proof.
  intros [[x|] n] [[y|] m] [[z|] k]; unfold Views.item_le; simpl; try done.
  apply str_le_trans.
Qed.

(** A dict holds [None] and two keys or more exactly when it holds [None]
    and a [str]. *)
Lemma mixed_keys (d : gmap (option pystr) Z) :
  is_Some (d !! None) /\ (2 <= size d)%nat <->
  is_Some (d !! None) /\ exists s, is_Some (d !! Some s).
Proof.
  split; intros [Hnone Hmore]; (split; [done|]).
  - pose proof (map_size_delete_Some None d Hnone) as Hsize.
    destruct (map_size_ne_0_lookup_1 (delete None d)) as [[s|] Hs]; [lia| |].
    + exists s. apply lookup_delete_is_Some in Hs. by destruct Hs.
    + apply lookup_delete_is_Some in Hs. by destruct Hs.
  - destruct Hmore as [s Hs].
    pose proof (map_size_delete_Some None d Hnone) as Hsize.
    assert (size (delete None d) <> 0%nat) as Hpos.
    { apply (map_size_ne_0_lookup_2 _ (Some s)). by apply lookup_delete_is_Some. }
    lia.
Qed.

Lemma by_source_is_Some (rws : list Db.Row) (k : option pystr) :
  is_Some (Queries.count_by_source rws !! k) <-> k ∈ map Db.source rws.
Proof.
  rewrite count_by_source_lookup. cbv zeta.
  induction rws as [|r rws IH]; simpl.
  - split; [by intros [? [=]]|by intros ?%elem_of_nil].
  - destruct (decide (Db.source r = k)) as [Hk|Hk].
    + rewrite filter_cons_True by done. simpl length. rewrite decide_False by lia.
      split; [intros _; rewrite Hk; apply list_elem_of_here|by eexists].
    + rewrite filter_cons_False by done. rewrite IH, elem_of_cons.
      split; [by right|by intros [?|?]].
Qed.

Lemma sorted_items_spec (d : gmap (option pystr) Z) :
  (Views.sorted_items d = Raises Views.TypeError
   /\ is_Some (d !! None) /\ exists s, is_Some (d !! Some s))
  \/ (exists items,
        Views.sorted_items d = Returns items
        /\ ~ (is_Some (d !! None) /\ exists s, is_Some (d !! Some s))
        /\ items ≡ₚ map_to_list d
        /\ forall i j a b, (i < j)%nat -> items !! i = Some a -> items !! j = Some b ->
             exists x y, a.1 = Some x /\ b.1 = Some y
               /\ Queries.str_le x y = true /\ x <> y).
Proof.
  unfold Views.sorted_items.
  destruct (decide (is_Some (d !! None) /\ (2 <= size d)%nat)) as [Hmixed|Hplain].
  - left. split; [done|]. by apply mixed_keys.
  - right. exists (@merge_sort _ Views.item_le Views.item_le_dec (map_to_list d)).
    split; [done|]. split; [by rewrite <- mixed_keys|].
    pose proof (@merge_sort_Permutation _ Views.item_le Views.item_le_dec (map_to_list d))
      as Hperm.
    pose proof (@StronglySorted_merge_sort _ Views.item_le Views.item_le_dec
                  item_le_trans item_le_total (map_to_list d)) as Hsorted.
    revert Hperm Hsorted.
    generalize (@merge_sort _ Views.item_le Views.item_le_dec (map_to_list d)).
    intros items Hperm Hsorted.
    split; [exact Hperm|].
    intros i j a b Hij Hi Hj.
    pose proof (StronglySorted_lookup _ _ i j a b Hsorted Hij Hi Hj) as Hle.
    assert (NoDup items.*1) as Hnodup.
    { rewrite Hperm. apply NoDup_fst_map_to_list. }
    assert (a.1 <> b.1) as Hne.
    { intros Heq. assert (i = j); [|lia].
      eapply NoDup_lookup; [exact Hnodup| |].
      - by rewrite list_lookup_fmap, Hi.
      - by rewrite list_lookup_fmap, Hj, Heq. }
    assert (forall c, c ∈ items -> is_Some (d !! c.1)) as Hdom.
    { intros [k n] Hc. rewrite Hperm in Hc. apply elem_of_map_to_list in Hc. by eexists. }
    assert (2 <= size d)%nat as Hsize.
    { rewrite <- length_map_to_list, <- Hperm.
      apply lookup_lt_Some in Hj. lia. }
    assert (forall c, c ∈ items -> exists x, c.1 = Some x) as Hstr.
    { intros c Hc. destruct (c.1) as [x|] eqn:Hkey; [by exists x|].
      exfalso. apply Hplain. split; [|done]. rewrite <- Hkey. by apply Hdom. }
    destruct (Hstr a) as [x Hx]; [by eapply list_elem_of_lookup_2|].
    destruct (Hstr b) as [y Hy]; [by eapply list_elem_of_lookup_2|].
    exists x, y. split; [done|]. split; [done|].
    unfold Views.item_le in Hle. rewrite Hx, Hy in Hle. split; [done|].
    intros ->. apply Hne. by rewrite Hx, Hy.
Qed.

(** X26: with an engine that works, [show_stats] raises TypeError, before
    it prints anything of the table of sources, exactly when the store
    holds a row without a source and a row with one: the keys [None] and a
    [str] cannot be sorted.  Otherwise it fills the table with one row per
    source and the number of its articles, the sources in ascending order;
    a store whose rows all lack a source gives the single row of [None]. *)
Theorem show_stats_mixed_sources (db : Db.Database) (env : Db.db_env) :
  Db.engine_event env = Db.Healthy ->
  (Views.show_stats db env = Raises Views.TypeError <->
   None ∈ map Db.source (Db.rows db) /\ exists s, Some s ∈ map Db.source (Db.rows db))
  /\ (Views.show_stats db env = Raises Views.TypeError
      \/ exists table,
           Views.show_stats db env = Returns table
           /\ (forall k c, (k, c) ∈ table <->
                 exists n, c = Cli.str_int n /\ 0 < n
                   /\ n = Z.of_nat (length (filter (fun r => Db.source r = k) (Db.rows db))))
           /\ forall i j a b, (i < j)%nat -> table !! i = Some a -> table !! j = Some b ->
                exists x y, a.1 = Some x /\ b.1 = Some y
                  /\ Queries.str_le x y = true /\ x <> y).
Proof.
  intros Hengine.
  assert (forall k n, Queries.count_by_source (Db.rows db) !! k = Some n <->
            0 < n /\ n = Z.of_nat (length (filter (fun r => Db.source r = k) (Db.rows db))))
    as Hlookup.
  { intros k n. rewrite count_by_source_lookup. cbv zeta.
    destruct (decide (Z.of_nat (length (filter (fun r => Db.source r = k) (Db.rows db))) = 0)).
    - split; [done|]. intros [? ->]. lia.
    - split; [intros [= <-]; split; [lia|done]|by intros [_ ->]]. }
  unfold Views.show_stats, Queries.get_stats, Queries.answered. rewrite Hengine. simpl.
  destruct (decide (Queries.count_by_source (Db.rows db) = ∅)) as [Hempty|Hsome].
  - split.
    + split; [done|]. intros [Hnone _]. apply by_source_is_Some in Hnone.
      rewrite Hempty, lookup_empty in Hnone. by destruct Hnone.
    + right. exists []. split; [done|]. split; [|done].
      intros k c. split; [by intros ?%elem_of_nil|].
      intros (n & _ & Hpos & Hn). exfalso.
      assert (Queries.count_by_source (Db.rows db) !! k = Some n) as Hk by by apply Hlookup.
      by rewrite Hempty, lookup_empty in Hk.
  - destruct (sorted_items_spec (Queries.count_by_source (Db.rows db)))
      as [(Heq & Hnone & s & Hs)|(items & Heq & Hnot & Hperm & Hsorted)];
      rewrite Heq; simpl.
    + split; [|by left]. split; [|done]. intros _.
      split; [by apply by_source_is_Some|]. exists s. by apply by_source_is_Some.
    + split.
      * split; [done|]. intros [Hnone [s Hs]]. exfalso. apply Hnot.
        split; [by apply by_source_is_Some|]. exists s. by apply by_source_is_Some.
      * right. eexists. split; [done|]. split.
        -- intros k c. rewrite list_elem_of_fmap. split.
           ++ intros ([k' n] & [= -> ->] & Hin). rewrite Hperm in Hin.
              apply elem_of_map_to_list, Hlookup in Hin. destruct Hin as [Hpos Hn].
              by exists n.
           ++ intros (n & -> & Hpos & Hn). exists (k, n). split; [done|].
              rewrite Hperm. apply elem_of_map_to_list, Hlookup. by split.
        -- intros i j a b Hij Hi Hj.
           rewrite list_lookup_fmap in Hi, Hj.
           destruct (items !! i) as [a'|] eqn:Hi'; [|done].
           destruct (items !! j) as [b'|] eqn:Hj'; [|done].
           injection Hi as <-. injection Hj as <-. simpl.
           by apply (Hsorted i j).
Qed.

End SourcesTable.

(** ** Worked instances of the further properties *)

Section MoreInstances.
Import Samples Notions.

(** A merge sort is an ORDER BY created_at DESC. *)
Lemma sample_order_ok : Queries.orders_newest_first sample_order.
Proof.
  assert (Transitive Queries.newer_first) as Htrans.
  { intros r1 r2 r3 H12 H23. unfold Queries.newer_first in *. by eapply str_le_trans. }
  assert (Total Queries.newer_first) as Htotal.
  { intros r1 r2. unfold Queries.newer_first. destruct (str_le_total (Db.created_at r1) (Db.created_at r2)); [by right|by left]. }
  intros rws. split.
  - apply merge_sort_Permutation.
  - by apply StronglySorted_merge_sort.
Qed.

Lemma sample_db_covered : Queries.seq_covers sample_db.
Proof. apply Forall_singleton. simpl. lia. Qed.

Lemma insert_article_atomic_witness :
  snd (Db.insert_article sample_db ∅ sample_env) = sample_db.
Proof.
  apply (insert_article_atomic sample_db ∅ sample_env
           (fst (Db.insert_article sample_db ∅ sample_env))).
  - apply surjective_pairing.
  - intros i. by vm_compute.
Defined.

Lemma insert_article_keeps_constraints_witness :
  Db.db_ok sample_db
  /\ Db.db_ok (snd (Db.insert_article sample_db sample_record sample_env)).
Proof.
  split; [exact sample_db_ok|].
  exact (proj1 (insert_article_keeps_constraints sample_db sample_record sample_env _ _
                  sample_db_ok (surjective_pairing _))).
Defined.

Lemma delete_old_articles_effect_witness :
  Db.db_ok sample_db
  /\ Db.db_ok (snd (Queries.delete_old_articles sample_is_old sample_db 30 sample_env)).
Proof.
  split; [exact sample_db_ok|].
  generalize (delete_old_articles_effect sample_is_old sample_db 30 sample_env sample_db_ok).
  destruct (Queries.delete_old_articles sample_is_old sample_db 30 sample_env) as [res db'].
  simpl. by intros [Hok _].
Defined.

Lemma purged_ids_not_reused_witness :
  Queries.seq_covers sample_db
  /\ forall r, r ∈ Db.rows sample_db -> Db.id r < 2.
Proof.
  split; [exact sample_db_covered|].
  destruct (purged_ids_not_reused sample_is_old sample_db 30 sample_env sample_env
              sample_record 2 sample_db_covered) as [_ [Hin|Hnew]].
  - by vm_compute.
  - vm_compute in Hin. by apply elem_of_nil in Hin.
  - exact Hnew.
Defined.

Lemma get_articles_selection_witness :
  Queries.orders_newest_first sample_order
  /\ Queries.get_articles sample_order sample_db (Some []) 10 0 sample_env
     = Queries.get_articles sample_order sample_db None 10 0 sample_env.
Proof.
  split; [exact sample_order_ok|].
  pose proof (get_articles_selection sample_order sample_order_ok sample_db None 10 0
                sample_env) as H.
  cbv zeta in H. by destruct H as (_ & _ & _ & H & _).
Defined.

Lemma get_articles_newest_first_witness :
  Queries.orders_newest_first sample_order
  /\ forall first r,
       fst (Queries.get_articles sample_order sample_db None 10 0 sample_env) !! 0%nat
       = Some first ->
       r ∈ matching sample_db None ->
       exists c, Queries.created_at first = Some c
         /\ Queries.str_le (Db.created_at r) c = true.
Proof.
  split; [exact sample_order_ok|].
  pose proof (get_articles_newest_first sample_order sample_order_ok sample_db None 10 0
                sample_env) as H.
  cbv zeta in H. destruct H as [_ H]. apply H. lia.
Defined.

Lemma insert_then_get_articles_witness :
  Db.db_ok sample_db
  /\ exists rec,
       filter (fun x => Queries.url x = lit "http://e.example/")
         (fst (Queries.get_articles sample_order
                 (snd (Db.insert_article sample_db sample_record sample_env))
                 None (-1) 0 sample_env)) = [rec]
       /\ Queries.id rec = Some 2.
Proof.
  split; [exact sample_db_ok|].
  destruct (insert_then_get_articles sample_order sample_order_ok sample_db
              (snd (Db.insert_article sample_db sample_record sample_env))
              (lit "New title") (lit "http://e.example/") (lit "new text")
              (lit "quotes") (lit "2024-05-01T12:00:00") (lit "2024-05-01 12:00:00")
              2 sample_env sample_db_ok) as (rec & Hrec & Hid & _).
  - by vm_compute.
  - done.
  - by exists rec.
Defined.


Lemma get_stats_counts_witness :
  exists st,
    Queries.get_stats sample_db sample_env = Returns st
    /\ Queries.by_source st !! Some (lit "quotes") = Some 1.
Proof.
  destruct (get_stats_counts sample_db sample_env) as (st & Heq & _ & Hcount & _); [done|].
  exists st. split; [exact Heq|]. apply Hcount. by vm_compute.
Defined.

Lemma fetch_many_counters_witness :
  exists articles c',
    Crawler.fetch_many sample_parse sample_crawler sample_tasks = (Returns articles, c')
    /\ Crawler.success (Crawler.stats c') = Z.of_nat (length articles)
    /\ Crawler.failed (Crawler.stats c') = 4 - Z.of_nat (length articles).
Proof.
  assert (1 <= Crawler.semaphore sample_crawler) as Hsem by (simpl; lia).
  destruct (fetch_many_delivered sample_parse sample_crawler sample_crawler sample_tasks
              Hsem eq_refl eq_refl) as (c' & Heq & _).
  destruct (fetch_many_counters sample_parse sample_crawler c' sample_tasks _ Hsem Heq)
    as (Hs & Hf & _).
  eexists _, c'. split; [exact Heq|]. split; [exact Hs|exact Hf].
Defined.


Lemma content_from_longest_paragraph_witness :
  exists longest,
    longest ∈ [NElem "p" [] [] [NText (lit "first version")]]
    /\ Crawler._extract_content (news_page (lit "first version"))
       = slice_to 10000 (get_text [] true longest).
Proof.
  destruct (content_from_longest_paragraph (news_page (lit "first version"))
              (NElem "p" [] [] [NText (lit "first version")]) [])
    as (longest & Hin & Heq & _); [by vm_compute..|].
  by exists longest.
Defined.



Lemma crawl_and_store_keeps_table_witness :
  Db.db_ok sample_db
  /\ Db.db_ok (snd (Pipeline.crawl_and_store sample_parse sample_isoformat sample_db
                      sample_tasks (lit "quotes") 2 1%float sample_engine)).
Proof.
  split; [exact sample_db_ok|].
  exact (proj1 (crawl_and_store_keeps_table sample_parse sample_isoformat sample_db
                  sample_tasks (lit "quotes") 2 1%float sample_engine _ _
                  sample_db_ok (surjective_pairing _))).
Defined.


Lemma crawl_httpbin_one_row_witness :
  Db.db_ok sample_db
  /\ (length (Db.rows (snd (Cli.crawl_httpbin sample_parse sample_isoformat sample_db
                              (fun _ => page_ok) 5 healthy_engine))) <= 2)%nat.
Proof.
  split; [exact sample_db_ok|].
  pose proof (crawl_httpbin_one_row sample_parse sample_isoformat sample_db
                (fun _ => page_ok) 5 healthy_engine sample_db_ok) as H.
  cbv zeta in H. exact (proj1 H).
Defined.

Lemma retry_decided_by_witness :
  Decorator.retry any_exception flaky (Returns tt) 3 = (Returns (Some 7), 3%nat).
Proof.
  apply (retry_decided_by any_exception flaky (Returns tt) 3 2).
  - done.
  - lia.
  - intros j Hj. exists TimeoutError. split; [|done].
    destruct j as [|[|j]]; [done|done|lia].
Defined.

Lemma show_stats_mixed_sources_witness :
  Views.show_stats mixed_db sample_env = Raises Views.TypeError.
Proof.
  apply (proj1 (show_stats_mixed_sources mixed_db sample_env eq_refl)). split.
  - apply list_elem_of_further, list_elem_of_here.
  - eexists. apply list_elem_of_here.
Defined.

End MoreInstances.
